(** * gonew: the source-identifier rewrite engine of [cmd/init.go]

    A shallow embedding of [fixGo], [fixGoMod] and [initProject] together
    with the properties stated about them in the specification.

    Go strings and byte slices are both sequences of bytes; they are
    modelled as [list ascii].  Offsets are natural numbers.  What the
    program calls in libraries outside this repository (the parser,
    [strconv], [go/token], [x/mod], [path/filepath], the codecs) are the
    methods of type classes; the calls to the operating system are the
    events of a program tree.  The first part holds the definitions, the
    second the properties. *)

From Stdlib Require Import Ascii String List Arith Bool Lia.
Import ListNotations.

Set Implicit Arguments.

(** ** Bytes *)

Definition bytes := list ascii.

(** A string literal of the development, read as bytes. *)
Definition B (s : string) : bytes := list_ascii_of_string s.

Fixpoint bytes_eqb (a b : bytes) : bool :=
  match a, b with
  | [], [] => true
  | x :: a', y :: b' => Ascii.eqb x y && bytes_eqb a' b'
  | _, _ => false
  end.

(** [s[i:j]] *)
Definition slice (s : bytes) (i j : nat) : bytes := firstn (j - i) (skipn i s).

(** ** The functions of packages [strings] and [path] that the code calls *)

Module strings.

(** [len(s) >= len(prefix) && s[:len(prefix)] == prefix] *)
Definition HasPrefix (s prefix : bytes) : bool :=
  (length prefix <=? length s) && bytes_eqb (firstn (length prefix) s) prefix.

Definition HasSuffix (s suffix : bytes) : bool :=
  (length suffix <=? length s)
  && bytes_eqb (skipn (length s - length suffix) s) suffix.

Definition TrimPrefix (s prefix : bytes) : bytes :=
  if HasPrefix s prefix then skipn (length prefix) s else s.

(** The index of the first instance of [substr] in [s]; [None] is Go's -1. *)
Fixpoint Index (s substr : bytes) : option nat :=
  if HasPrefix s substr then Some 0
  else match s with
       | [] => None
       | _ :: s' => option_map S (Index s' substr)
       end.

Definition Contains (s substr : bytes) : bool :=
  match Index s substr with Some _ => true | None => false end.

(** [before, after, found] *)
Definition Cut (s sep : bytes) : bytes * bytes * bool :=
  match Index s sep with
  | Some i => (firstn i s, skipn (i + length sep) s, true)
  | None => (s, [], false)
  end.

(** [strings.Replace(s, old, new, 1)]: the first instance of [old]
    replaced by [new]; [s] itself when [old == new] or [old] does not
    occur. *)
Definition Replace1 (s old new : bytes) : bytes :=
  if bytes_eqb old new then s
  else match Index s old with
       | None => s
       | Some j => firstn j s ++ new ++ skipn (j + length old) s
       end.

End strings.

Module path.

Definition slash : ascii := "/"%char.

Fixpoint LastIndexByte (s : bytes) (c : ascii) : option nat :=
  match s with
  | [] => None
  | x :: s' =>
      match LastIndexByte s' c with
      | Some i => Some (S i)
      | None => if Ascii.eqb x c then Some 0 else None
      end
  end.

(** The loop [for len(path) > 0 && path[len(path)-1] == '/'] of [Base],
    run on the reversed path. *)
Fixpoint strip_leading (c : ascii) (r : bytes) : bytes :=
  match r with
  | x :: r' => if Ascii.eqb x c then strip_leading c r' else r
  | [] => []
  end.

Definition strip_trailing_slashes (p : bytes) : bytes :=
  rev (strip_leading slash (rev p)).

(** [path.Base]: the last element of the path. *)
Definition Base (p : bytes) : bytes :=
  match p with
  | [] => B "."
  | _ =>
      let p1 := strip_trailing_slashes p in
      let p2 := match LastIndexByte p1 slash with
                | Some i => skipn (i + 1) p1
                | None => p1
                end in
      match p2 with
      | [] => B "/"
      | _ => p2
      end
  end.

End path.

(** ** Outcomes

    A [log.Fatalf] ends the process.  The first error kinds are those of
    the specification's taxonomy; the others name the remaining places
    where [cmd/init.go] gives up. *)

Inductive error : Type :=
| ValidationError (what : bytes)
| ParseError
| PlanError (name dname : bytes)
| OverlapError
| IOError
| ManifestError
| DestinationError
| FetchError
| RuntimePanic.

Inductive outcome (A : Type) : Type :=
| Ok (a : A)
| Fatal (e : error).

Arguments Ok {A} a.
Arguments Fatal {A} e.

Definition bind {A C : Type} (m : outcome A) (k : A -> outcome C) : outcome C :=
  match m with
  | Ok a => k a
  | Fatal e => Fatal e
  end.

Notation "x <- m ;; k" := (bind m (fun x => k))
  (at level 61, m at next level, right associativity).

(** ** The syntax tree of a file header ([go/ast], [go/token]) *)

(** A [token.Pos] of the only file of a fresh file set: the file's base is
    1, so offset [o] has position [o + 1], and 0 is [token.NoPos]. *)
Definition Pos := nat.

Record Ident : Type := { NamePos : Pos; Name : bytes }.
Record BasicLit : Type := { ValuePos : Pos; Value : bytes }.
Record ImportSpec : Type := { spec_Name : option Ident; spec_Path : BasicLit }.
Record File : Type := { file_Name : Ident; Imports : list ImportSpec }.

Definition Ident_End (x : Ident) : Pos := NamePos x + length (Name x).
Definition BasicLit_End (x : BasicLit) : Pos := ValuePos x + length (Value x).

(** The closure [at] of [fixGo]: [fileSet.File(p).Offset(p)], for a
    position of the file (1 or more). *)
Definition at_ (p : Pos) : nat := p - 1.

(** ** The Go toolchain *)

Class Toolchain : Type := {
  (** [parser.ParseFile(fileSet, file, data, parser.ImportsOnly)];
      [None] when it returns an error. *)
  ParseFile : bytes -> bytes -> option File;
  (** [strconv.Unquote]; [None] when it returns an error. *)
  Unquote : bytes -> option bytes;
  (** [strconv.Quote] *)
  Quote : bytes -> bytes;
  (** [token.IsIdentifier] *)
  IsIdentifier : bytes -> bool;
  (** [module.CheckPath(p) == nil] *)
  CheckPath : bytes -> bool
}.

(** ** The patch buffer (package [internal/edit]) *)

Module edit.

(** Modelled from the spec: the package [internal/edit] that [fixGo]
    imports.  An edit is a half-open byte range of the original bytes and
    the text to substitute; a zero-length range is a pure insertion. *)
Record Edit : Type := { start : nat; end_ : nat; new : bytes }.

(** Modelled from the spec: the buffer of package [internal/edit], the
    immutable original bytes and the edit list. *)
Record Buffer : Type := { old : bytes; q : list Edit }.

(** Modelled from the spec: [edit.NewBuffer], a buffer over the original
    bytes with no edit. *)
Definition NewBuffer (data : bytes) : Buffer := {| old := data; q := [] |}.

(** Modelled from the spec: [Buffer.Insert] of [internal/edit], which
    appends a zero-length edit to the edit list. *)
Definition Insert (b : Buffer) (pos : nat) (text : bytes) : Buffer :=
  {| old := old b;
     q := q b ++ [{| start := pos; end_ := pos; new := text |}] |}.

(** Modelled from the spec: [Buffer.Replace] of [internal/edit], which
    appends an edit over [[s, e)] to the edit list. *)
Definition Replace (b : Buffer) (s e : nat) (text : bytes) : Buffer :=
  {| old := old b; q := q b ++ [{| start := s; end_ := e; new := text |}] |}.

(** Modelled from the spec: the pure insertions of [internal/edit], the
    edits over a zero-length range. *)
Definition is_insert (e : Edit) : bool := start e =? end_ e.

(** Modelled from the spec: the order of materializing in
    [internal/edit], by start, then inserts before replacements at the
    same start. *)
Definition edit_leb (a b : Edit) : bool :=
  (start a <? start b)
  || ((start a =? start b) && (is_insert a || negb (is_insert b))).

(** Modelled from the spec: one step of the sort of [internal/edit]; [e]
    goes before the first edit it does not come after. *)
Fixpoint insert_sorted (e : Edit) (l : list Edit) : list Edit :=
  match l with
  | [] => [e]
  | x :: l' => if edit_leb e x then e :: l else x :: insert_sorted e l'
  end.

(** Modelled from the spec: the sort of [Buffer.Bytes] in
    [internal/edit]; edits that compare equal keep the order in which
    they were queued. *)
Fixpoint sort_edits (l : list Edit) : list Edit :=
  match l with
  | [] => []
  | e :: l' => insert_sorted e (sort_edits l')
  end.

(** Modelled from the spec: the single pass of [Buffer.Bytes] in
    [internal/edit] over the sorted edits, from offset [offset]: each
    unedited gap is copied and each replacement text substituted; an edit
    that starts before the end of its predecessor is an overlap. *)
Fixpoint walk (old : bytes) (offset : nat) (es : list Edit) : outcome bytes :=
  match es with
  | [] => Ok (skipn offset old)
  | e :: es' =>
      if start e <? offset then Fatal OverlapError
      else rest <- walk old (end_ e) es' ;;
           Ok (slice old offset (start e) ++ new e ++ rest)
  end.

(** Modelled from the spec: [Buffer.Bytes] of [internal/edit], the
    original bytes with the queued edits applied. *)
Definition Bytes (b : Buffer) : outcome bytes :=
  walk (old b) 0 (sort_edits (q b)).

End edit.

(** ** [fixGo] *)

Section FixGo.

Context {T : Toolchain}.

Definition is_nil {A : Type} (o : option A) : bool :=
  match o with None => true | Some _ => false end.

(** The package clause of a file in the root directory of the module. *)
Definition fixPackage (buf : edit.Buffer) (f : File) (srcName dstName : bytes)
    (isRoot : bool) : outcome edit.Buffer :=
  if isRoot then
    let name := Name (file_Name f) in
    if bytes_eqb name srcName || bytes_eqb name (srcName ++ B "_test") then
      let dname := dstName ++ strings.TrimPrefix name srcName in
      if negb (IsIdentifier dname) then Fatal (PlanError name dname)
      else Ok (edit.Replace buf (at_ (NamePos (file_Name f)))
                 (at_ (Ident_End (file_Name f))) dname)
    else Ok buf
  else Ok buf.

(** The body of the loop over [f.Imports]. *)
Definition fixImport (srcMod dstMod srcName dstName : bytes)
    (buf : edit.Buffer) (spec : ImportSpec) : edit.Buffer :=
  match Unquote (Value (spec_Path spec)) with
  | None => buf
  | Some path =>
      let p := at_ (ValuePos (spec_Path spec)) in
      let e := at_ (BasicLit_End (spec_Path spec)) in
      let buf :=
        if bytes_eqb path srcMod then
          let buf :=
            if negb (bytes_eqb srcName dstName) && is_nil (spec_Name spec)
            then edit.Insert buf p (srcName ++ B " ")
            else buf in
          edit.Replace buf p e (Quote dstMod)
        else buf in
      if strings.HasPrefix path (srcMod ++ B "/")
      then edit.Replace buf p e (Quote (strings.Replace1 path srcMod dstMod))
      else buf
  end.

(** [fixGo] from the parsed file up to, and without, the final
    [buf.Bytes()]: the buffer with the edits the function has queued. *)
Definition fixGo_buffer (data : bytes) (f : File) (srcMod dstMod : bytes)
    (isRoot : bool) : outcome edit.Buffer :=
  let buf := edit.NewBuffer data in
  let srcName := path.Base srcMod in
  let dstName := path.Base dstMod in
  buf <- fixPackage buf f srcName dstName isRoot ;;
  Ok (fold_left (fixImport srcMod dstMod srcName dstName) (Imports f) buf).

(** [fixGo] after a successful parse. *)
Definition fixGo_parsed (data : bytes) (f : File) (srcMod dstMod : bytes)
    (isRoot : bool) : outcome bytes :=
  buf <- fixGo_buffer data f srcMod dstMod isRoot ;;
  edit.Bytes buf.

Definition fixGo (data file srcMod dstMod : bytes) (isRoot : bool)
    : outcome bytes :=
  match ParseFile file data with
  | None => Fatal ParseError
  | Some f => fixGo_parsed data f srcMod dstMod isRoot
  end.

(** The edits the loop body queues for one import spec. *)
Definition import_edits (srcMod dstMod : bytes) (spec : ImportSpec)
    : list edit.Edit :=
  edit.q (fixImport srcMod dstMod (path.Base srcMod) (path.Base dstMod)
            (edit.NewBuffer []) spec).

(** The edit queued for the package clause, when there is one. *)
Definition package_edits (srcMod dstMod : bytes) (f : File) (isRoot : bool)
    : list edit.Edit :=
  match fixPackage (edit.NewBuffer []) f (path.Base srcMod)
          (path.Base dstMod) isRoot with
  | Ok b => edit.q b
  | Fatal _ => []
  end.

End FixGo.

(** ** [fixGoMod] *)

(** Package [golang.org/x/mod/modfile]. *)
Class Modfile : Type := {
  (** [*modfile.File] *)
  ModFile : Type;
  (** [modfile.ParseLax("go.mod", data, nil)]; [None] on error. *)
  ParseLax : bytes -> option ModFile;
  (** [file.AddModuleStmt(path)], which updates the file in place; [None]
      on error. *)
  AddModuleStmt : ModFile -> bytes -> option ModFile;
  (** [file.Format()]; [None] on error. *)
  Format : ModFile -> option bytes;
  (** [file.Module.Mod.Path], when the file has a module statement. *)
  ModulePath : ModFile -> option bytes
}.

Definition fixGoMod {M : Modfile} (data dstMod : bytes) : outcome bytes :=
  match ParseLax data with
  | None => Fatal ParseError
  | Some file =>
      match AddModuleStmt file dstMod with
      | None => Fatal ManifestError
      | Some file' =>
          match Format file' with
          | None => Ok data
          | Some format => Ok format
          end
      end
  end.

(** ** [initProject] *)

(** Package [path/filepath] on the platform the program runs on. *)
Class Platform : Type := {
  Separator : ascii;
  Rel : bytes -> bytes -> option bytes;
  Join : bytes -> bytes -> bytes;
  Dir : bytes -> bytes
}.

(** Packages [encoding/json], [yaml.v3] and [text/template]. *)
Class Codecs : Type := {
  (** [json.Unmarshal] into [struct { Dir string }]: the field [Dir]. *)
  json_Dir : bytes -> option bytes;
  (** [yaml.Unmarshal] into a [map[string]string], as the list of its
      entries in the order in which [range] visits them. *)
  yaml_map : bytes -> option (list (bytes * bytes));
  Template : Type;
  (** [template.New(name).Parse(content)] *)
  template_Parse : bytes -> bytes -> option Template
}.

(** What [WalkDir] and [Walk] pass to their callback. *)
Record WalkEntry : Type := { w_path : bytes; w_isDir : bool; w_err : bool }.

Section Program.

Context {T : Toolchain} {M : Modfile} {P : Platform} {C : Codecs}.

(** The calls to the outside world, indexed by what they return.  A
    [bool] answer is [true] when the returned error is nil. *)
Inductive io : Type -> Type :=
| Usage : io bool
| ReadDir (dir : bytes) : io (list bytes * bool)
| GoModDownload (ver : bytes) : io (bool * bytes)
| MkdirAll (p : bytes) : io bool
| WalkDir (root : bytes) : io (list WalkEntry)
| ReadFile (name : bytes) : io (option bytes)
| WriteFile (name data : bytes) : io bool
| Prompt (label : bytes) : io (option bytes)
| Walk (root : bytes) : io (list WalkEntry)
| Create (name : bytes) : io bool
| Execute (t : Template) (vars : list (bytes * bytes)) (name : bytes) : io bool.

(** A program: it returns, ends the process ([log.Fatal], a run-time
    panic), or makes a call and goes on with the answer. *)
Inductive prog : Type :=
| Return
| Exit (e : error)
| Do (A : Type) (c : io A) (k : A -> prog).

Notation "x <~ c ;; k" := (Do c (fun x => k))
  (at level 61, c at next level, right associativity).

Definition lift (A : Type) (m : outcome A) (k : A -> prog) : prog :=
  match m with
  | Ok a => k a
  | Fatal e => Exit e
  end.

(** The callback of [filepath.WalkDir] on the entries of the module
    cache in turn, then [k].  Its parameter [src] is the path of the
    entry; it hides the variable [src] of the package, so that the path
    is what [fixGo] receives as [srcMod].  The callback returns nil or
    ends the process, so that [WalkDir] itself returns nil. *)
Fixpoint copy_tree (infoDir dir dst : bytes) (entries : list WalkEntry)
    (k : prog) : prog :=
  match entries with
  | [] => k
  | en :: rest =>
      let src := w_path en in
      if w_err en then Exit IOError
      else
        match Rel infoDir src with
        | None => Exit IOError
        | Some rel =>
            let dstPath := Join dir rel in
            if w_isDir en then
              ok <~ MkdirAll dstPath ;;
              if ok then copy_tree infoDir dir dst rest k else Exit IOError
            else
              r <~ ReadFile src ;;
              match r with
              | None => Exit IOError
              | Some data =>
                  let isRoot := negb (strings.Contains rel [Separator]) in
                  lift (if strings.HasSuffix rel (B ".go")
                        then fixGo data rel src dst isRoot else Ok data)
                    (fun data =>
                  lift (if bytes_eqb rel (B "go.mod")
                        then fixGoMod data dst else Ok data)
                    (fun data =>
                  ok <~ WriteFile dstPath data ;;
                  if ok then copy_tree infoDir dir dst rest k
                  else Exit IOError))
              end
        end
  end.

(** [runPrompts]: one prompt per entry of the configuration. *)
Fixpoint runPrompts (config answers : list (bytes * bytes))
    (k : list (bytes * bytes) -> prog) : prog :=
  match config with
  | [] => k answers
  | (key, desc) :: rest =>
      r <~ Prompt desc ;;
      match r with
      | None => Exit IOError
      | Some name => runPrompts rest (answers ++ [(key, name)]) k
      end
  end.

(** [generateFile] *)
Definition generateFile (vars : list (bytes * bytes))
    (fileName content projectDir : bytes) (k : prog) : prog :=
  match template_Parse fileName content with
  | None => Exit IOError
  | Some tmpl =>
      let filePath := Join projectDir fileName in
      ok <~ MkdirAll (Dir filePath) ;;
      if negb ok then Exit IOError
      else
        ok <~ Create filePath ;;
        if negb ok then Exit IOError
        else
          ok <~ Execute tmpl vars filePath ;;
          if negb ok then Exit IOError else k
  end.

(** The callback of [filepath.Walk] in [replaceVars] on the entries of
    the new directory in turn; an error it returns ends the walk and
    reaches [log.Fatal] in [initProject]. *)
Fixpoint replaceVars_walk (dir : bytes) (inputs : list (bytes * bytes))
    (entries : list WalkEntry) (k : prog) : prog :=
  match entries with
  | [] => k
  | en :: rest =>
      if w_err en then Exit IOError
      else if negb (w_isDir en) then
        match Rel dir (w_path en) with
        | None => Exit IOError
        | Some relPath =>
            r <~ ReadFile (w_path en) ;;
            match r with
            | None => Exit IOError
            | Some content =>
                generateFile inputs relPath content dir
                  (replaceVars_walk dir inputs rest k)
            end
        end
      else replaceVars_walk dir inputs rest k
  end.

Definition replaceVars (dir : bytes) (inputs : list (bytes * bytes))
    (k : prog) : prog :=
  entries <~ Walk dir ;;
  replaceVars_walk dir inputs entries k.

(** [readConfig]; its error reaches [log.Fatal] in [initProject]. *)
Definition readConfig (filename : bytes)
    (k : list (bytes * bytes) -> prog) : prog :=
  r <~ ReadFile filename ;;
  match r with
  | None => Exit IOError
  | Some data =>
      match yaml_map data with
      | None => Exit IOError
      | Some config => k config
      end
  end.

(** [args[0]] without its version. *)
Definition source_of (arg : bytes) : bytes :=
  fst (fst (strings.Cut arg (B "@"))).

(** [initProject] from the assignment [src = args[0]] on. *)
Definition initProject_run (args : list bytes) : prog :=
  match args with
  | [] => Exit RuntimePanic
  | arg0 :: more =>
      let ver :=
        if negb (strings.Contains arg0 (B "@")) then arg0 ++ B "@latest"
        else arg0 in
      let src := source_of arg0 in
      if negb (CheckPath src) then Exit (ValidationError src)
      else
        let dst := match more with arg1 :: _ => arg1 | [] => src end in
        if match more with
           | arg1 :: _ => negb (CheckPath arg1)
           | [] => false
           end
        then Exit (ValidationError dst)
        else
          let dir :=
            match more with
            | [_; arg2] => arg2
            | _ => B "." ++ [Separator] ++ path.Base dst
            end in
          rd <~ ReadDir dir ;;
          let (de, err_nil) := rd in
          if err_nil && (0 <? length de) then Exit DestinationError
          else
            let needMkdir := negb err_nil in
            dl <~ GoModDownload ver ;;
            let (ran, stdout) := dl in
            if negb ran then Exit FetchError
            else
              match json_Dir stdout with
              | None => Exit FetchError
              | Some infoDir =>
                  let copy :=
                    entries <~ WalkDir infoDir ;;
                    copy_tree infoDir dir dst entries (
                    let templateFile := Join dir (B "template.yaml") in
                    readConfig templateFile (fun prompts =>
                    runPrompts prompts [] (fun inputs =>
                    replaceVars dir inputs Return))) in
                  if needMkdir then
                    ok <~ MkdirAll dir ;;
                    if ok then copy else Exit IOError
                  else copy
              end
  end.

Definition initProject (args : list bytes) : prog :=
  if (length args <? 1) || (3 <? length args) then
    ok <~ Usage ;;
    if ok then initProject_run args else Return
  else initProject_run args.

(** ** Runs *)

(** A call and its answer. *)
Inductive call : Type := Call (A : Type) (c : io A) (r : A).

Inductive result : Type := Returned | Exited (e : error).

(** [runs p tr res]: the program makes the calls of [tr], gets their
    answers, and ends with [res]. *)
Fixpoint runs (p : prog) (tr : list call) (res : result) : Prop :=
  match p with
  | Return => tr = [] /\ res = Returned
  | Exit e => tr = [] /\ res = Exited e
  | Do c k => exists r tr', tr = Call c r :: tr' /\ runs (k r) tr' res
  end.

(** The run in a world that answers every call. *)
Fixpoint exec (w : forall A, io A -> A) (p : prog) : list call * result :=
  match p with
  | Return => ([], Returned)
  | Exit e => ([], Exited e)
  | Do c k =>
      let r := w _ c in
      let (tr, res) := exec w (k r) in (Call c r :: tr, res)
  end.

(** Reading a directory, fetching a module, reading or writing a file. *)
Definition touches_files (c : call) : bool :=
  match c with
  | Call Usage _ => false
  | Call (Prompt _) _ => false
  | _ => true
  end.

Definition is_fetch (c : call) : bool :=
  match c with
  | Call (GoModDownload _) _ => true
  | _ => false
  end.

Definition writes (c : call) : bool :=
  match c with
  | Call (MkdirAll _) _ => true
  | Call (WriteFile _ _) _ => true
  | Call (Create _) _ => true
  | Call (Execute _ _ _) _ => true
  | _ => false
  end.

(** What [os.ReadDir] may answer for a directory: for one that does not
    exist, an error; for one that exists, all its entries and no error,
    or the entries read before an error together with that error. *)
Inductive dir_state : Type := Missing | Present (entries : list bytes).

Definition ReadDir_answers (s : dir_state) (r : list bytes * bool) : Prop :=
  match s with
  | Missing => r = ([], false)
  | Present es => r = (es, true) \/ exists n, r = (firstn n es, false)
  end.

(** The directory the project is created in. *)
Definition destination (args : list bytes) : bytes :=
  match args with
  | [_; _; arg2] => arg2
  | _ :: arg1 :: _ => B "." ++ [Separator] ++ path.Base arg1
  | [arg0] => B "." ++ [Separator] ++ path.Base (source_of arg0)
  | [] => []
  end.

(** The old identity is [args[0]] without its version, the new one is
    [args[1]] when it is given and the old one otherwise. *)
Definition invalid_identity (args : list bytes) : bool :=
  match args with
  | [] => false
  | arg0 :: more =>
      negb (CheckPath (source_of arg0))
      || match more with
         | arg1 :: _ => negb (CheckPath arg1)
         | [] => false
         end
  end.

End Program.

(** ** What the parser guarantees

    The facts about a header that [go/parser] accepted which the rewrite
    relies on: every identifier and literal of the tree is the text of
    the file at its position, the package name comes first and the
    import specs follow in source order without overlapping. *)

Definition text_at (data : bytes) (p : Pos) (s : bytes) : bool :=
  (1 <=? p) && (1 <=? length s)
  && bytes_eqb (slice data (at_ p) (at_ p + length s)) s.

Definition spec_ok (data : bytes) (lo : Pos) (s : ImportSpec) : bool :=
  match spec_Name s with
  | Some x =>
      (lo <=? NamePos x) && text_at data (NamePos x) (Name x)
      && (Ident_End x <=? ValuePos (spec_Path s))
  | None => lo <=? ValuePos (spec_Path s)
  end
  && text_at data (ValuePos (spec_Path s)) (Value (spec_Path s)).

Fixpoint specs_ok (data : bytes) (lo : Pos) (l : list ImportSpec) : bool :=
  match l with
  | [] => true
  | s :: l' =>
      spec_ok data lo s && specs_ok data (BasicLit_End (spec_Path s)) l'
  end.

Definition header_ok {T : Toolchain} (data : bytes) (f : File) : bool :=
  text_at data (NamePos (file_Name f)) (Name (file_Name f))
  && IsIdentifier (Name (file_Name f))
  && specs_ok data (Ident_End (file_Name f)) (Imports f).

(** ** Edit lists

    The properties of an edit list that the specification states. *)

(** Edits that follow one another from offset [lo] on: each starts at or
    after the end of the one before it. *)
Fixpoint chain (lo : nat) (l : list edit.Edit) : Prop :=
  match l with
  | [] => True
  | e :: l' =>
      lo <= edit.start e /\ edit.start e <= edit.end_ e
      /\ chain (edit.end_ e) l'
  end.

(** Where a chain from [lo] ends. *)
Definition last_end (lo : nat) (l : list edit.Edit) : nat :=
  fold_left (fun _ e => edit.end_ e) l lo.

Definition non_overlapping (l : list edit.Edit) : Prop :=
  forall i j a b,
    nth_error l i = Some a -> nth_error l j = Some b ->
    edit.start a < edit.start b -> edit.end_ a <= edit.start b.

Definition insert_before_replace (l : list edit.Edit) : Prop :=
  forall i j a b,
    nth_error l i = Some a -> nth_error l j = Some b ->
    edit.start a = edit.start b ->
    edit.is_insert a = true -> edit.is_insert b = false -> i < j.

(** ** A toolchain to run the model

    An instance of [Toolchain] for headers of the simplest shape: a
    [package] line followed by [import] lines of one spec each, with
    ASCII identifiers and with string literals, interpreted or raw, of
    printable ASCII characters without backslash.  It serves to evaluate
    the model on sample files; the properties are proved for every
    toolchain. *)

Module Plain.

Definition in_range (lo hi : nat) (c : ascii) : bool :=
  (lo <=? nat_of_ascii c) && (nat_of_ascii c <=? hi).

Definition is_letter (c : ascii) : bool :=
  in_range 65 90 c || in_range 97 122 c || Ascii.eqb c "_"%char.

Definition is_digit (c : ascii) : bool := in_range 48 57 c.

Definition keywords : list bytes :=
  map B ["break"; "case"; "chan"; "const"; "continue"; "default"; "defer";
         "else"; "fallthrough"; "for"; "func"; "go"; "goto"; "if"; "import";
         "interface"; "map"; "package"; "range"; "return"; "select";
         "struct"; "switch"; "type"; "var"]%string.

(** [token.IsIdentifier] on ASCII names. *)
Definition IsIdentifier (name : bytes) : bool :=
  match name with
  | [] => false
  | c :: rest =>
      negb (existsb (bytes_eqb name) keywords)
      && is_letter c && forallb (fun x => is_letter x || is_digit x) rest
  end.

Definition dquote : ascii := ascii_of_nat 34.
Definition bquote : ascii := ascii_of_nat 96.
Definition backslash : ascii := ascii_of_nat 92.
Definition newline : ascii := ascii_of_nat 10.

(** [strconv.Quote] on printable ASCII without quote or backslash (so
    on every valid module path). *)
Definition Quote (s : bytes) : bytes := dquote :: s ++ [dquote].

Definition plain_char (q : ascii) (c : ascii) : bool :=
  negb (Ascii.eqb c q) && negb (Ascii.eqb c backslash)
  && negb (Ascii.eqb c newline).

(** [strconv.Unquote] on literals, interpreted or raw, without
    backslash or newline; other literals are refused here. *)
Definition Unquote (lit : bytes) : option bytes :=
  match lit with
  | q :: rest =>
      if Ascii.eqb q dquote || Ascii.eqb q bquote then
        match rev rest with
        | q' :: body =>
            if Ascii.eqb q' q && forallb (plain_char q) body
            then Some (rev body) else None
        | [] => None
        end
      else None
  | [] => None
  end.

Fixpoint span (p : ascii -> bool) (s : bytes) : bytes * bytes :=
  match s with
  | c :: s' =>
      if p c then let (a, b) := span p s' in (c :: a, b) else ([], s)
  | [] => ([], [])
  end.

Definition expect (kw s : bytes) : option bytes :=
  if strings.HasPrefix s kw then Some (skipn (length kw) s) else None.

Definition scan_ident (s : bytes) : option (bytes * bytes) :=
  let (x, rest) := span (fun c => is_letter c || is_digit c) s in
  if IsIdentifier x then Some (x, rest) else None.

(** A string literal at the head of [s]: its text, quotes included, and
    what follows it. *)
Definition scan_string (s : bytes) : option (bytes * bytes) :=
  match s with
  | q :: s' =>
      if Ascii.eqb q dquote || Ascii.eqb q bquote then
        let (body, rest) := span (plain_char q) s' in
        match rest with
        | c :: rest' =>
            if Ascii.eqb c q then Some (q :: body ++ [q], rest') else None
        | [] => None
        end
      else None
  | [] => None
  end.

(** One import spec, after the keyword: an optional alias and the path. *)
Definition scan_spec (s : bytes) (p : Pos) : option (ImportSpec * bytes) :=
  match scan_string s with
  | Some (lit, rest) =>
      Some ({| spec_Name := None;
               spec_Path := {| ValuePos := p; Value := lit |} |}, rest)
  | None =>
      match scan_ident s with
      | Some (x, s1) =>
          match expect (B " ") s1 with
          | Some s2 =>
              match scan_string s2 with
              | Some (lit, rest) =>
                  Some ({| spec_Name := Some {| NamePos := p; Name := x |};
                           spec_Path := {| ValuePos := p + length x + 1;
                                           Value := lit |} |}, rest)
              | None => None
              end
          | None => None
          end
      | None => None
      end
  end.

(** The import lines from position [p] on; the first line that is not an
    import ends the header. *)
Fixpoint scan_imports (fuel : nat) (s : bytes) (p : Pos)
    : option (list ImportSpec) :=
  match fuel with
  | 0 => Some []
  | S fuel' =>
      match expect [newline] s with
      | Some s' => scan_imports fuel' s' (p + 1)
      | None =>
          match expect (B "import ") s with
          | None => Some []
          | Some s1 =>
              match scan_spec s1 (p + 7) with
              | Some (spec, rest) =>
                  match scan_imports fuel' rest
                          (BasicLit_End (spec_Path spec)) with
                  | Some l => Some (spec :: l)
                  | None => None
                  end
              | None => None
              end
          end
      end
  end.

Definition ParseFile (file data : bytes) : option File :=
  match expect (B "package ") data with
  | Some s =>
      match scan_ident s with
      | Some (x, rest) =>
          match scan_imports (length rest) rest (9 + length x) with
          | Some l =>
              Some {| file_Name := {| NamePos := 9; Name := x |};
                      Imports := l |}
          | None => None
          end
      | None => None
      end
  | None => None
  end.

Definition path_char (c : ascii) : bool :=
  is_letter c || is_digit c || Ascii.eqb c "-"%char || Ascii.eqb c "."%char
  || Ascii.eqb c "~"%char.

Definition first_path_char (c : ascii) : bool :=
  in_range 97 122 c || is_digit c || Ascii.eqb c "-"%char
  || Ascii.eqb c "."%char.

Fixpoint elements (cur : bytes) (s : bytes) : list bytes :=
  match s with
  | [] => [rev cur]
  | c :: s' =>
      if Ascii.eqb c path.slash then rev cur :: elements [] s'
      else elements (c :: cur) s'
  end.

Definition elem_ok (e : bytes) : bool :=
  match e, rev e with
  | c :: _, d :: _ =>
      forallb path_char e && negb (Ascii.eqb c "."%char)
      && negb (Ascii.eqb d "."%char)
  | _, _ => false
  end.

(** The grammar of module paths: elements separated by slashes, none
    empty, of letters, digits and [-._~], none starting or ending with a
    dot; the first one of lower-case letters, digits, [-] and [.], with a
    dot in it and no leading dash.  [module.CheckPath] refuses some more
    paths (file names reserved on Windows, malformed major-version
    suffixes). *)
Definition CheckPath (p : bytes) : bool :=
  match elements [] p with
  | first :: rest =>
      forallb elem_ok (first :: rest)
      && forallb first_path_char first
      && existsb (Ascii.eqb "."%char) first
      && negb (strings.HasPrefix first (B "-"))
  | [] => false
  end.

#[export] Instance toolchain : Toolchain :=
  Build_Toolchain ParseFile Unquote Quote IsIdentifier CheckPath.

End Plain.

(** ** Instances to run [fixGoMod] and [initProject] *)

Module Sample.

Definition Q (s : string) : bytes := Plain.Quote (B s).

Fixpoint lines (cur : bytes) (s : bytes) : list bytes :=
  match s with
  | [] => match cur with [] => [] | _ => [rev cur] end
  | c :: s' =>
      if Ascii.eqb c Plain.newline then rev cur :: lines [] s'
      else lines (c :: cur) s'
  end.

Fixpoint module_line (ls : list bytes) : option bytes * list bytes :=
  match ls with
  | [] => (None, [])
  | l :: ls' =>
      match Plain.expect (B "module ") l with
      | Some p => (Some p, ls')
      | None => let (m, rest) := module_line ls' in (m, l :: rest)
      end
  end.

Definition parse_lines (data : bytes) : option (option bytes * list bytes) :=
  Some (module_line (lines [] data)).

Definition set_module (f : option bytes * list bytes) (p : bytes)
    : option (option bytes * list bytes) :=
  Some (Some p, snd f).

Definition format_lines (f : option bytes * list bytes) : option bytes :=
  Some (match fst f with
        | Some p => B "module " ++ p ++ [Plain.newline]
        | None => []
        end ++ flat_map (fun l => l ++ [Plain.newline]) (snd f)).

(** A manifest library of one-line statements. *)
Definition modfile : Modfile :=
  Build_Modfile parse_lines set_module format_lines (@fst _ _).

Definition rel_path (base target : bytes) : option bytes :=
  if bytes_eqb target base then Some (B ".")
  else Plain.expect (base ++ B "/") target.

Definition join_path (a b : bytes) : bytes :=
  if bytes_eqb b (B ".") then a else a ++ B "/" ++ b.

Definition dir_of (p : bytes) : bytes :=
  match path.LastIndexByte p path.slash with
  | Some i => firstn i p
  | None => B "."
  end.

(** Slash-separated paths. *)
Definition platform : Platform :=
  Build_Platform path.slash rel_path join_path dir_of.

Definition json_dir_field (s : bytes) : option bytes :=
  match Plain.expect (B "{" ++ Q "Dir" ++ B ":" ++ [Plain.dquote]) s with
  | Some rest =>
      Some (fst (Plain.span (fun c => negb (Ascii.eqb c Plain.dquote)) rest))
  | None => None
  end.

Definition yaml_line (l : bytes) : bytes * bytes :=
  let (k, v) := Plain.span (fun c => negb (Ascii.eqb c ":"%char)) l in
  (k, skipn 2 v).

Definition codecs : Codecs :=
  Build_Codecs json_dir_field (fun s => Some (map yaml_line (lines [] s)))
    (fun _ content => Some content).

End Sample.

(** ** The rules on sample files *)

Module Examples.
Import Sample.

#[local] Existing Instance Plain.toolchain.
#[local] Existing Instance modfile.
#[local] Existing Instance platform.
#[local] Existing Instance codecs.

Definition nl : bytes := [Plain.newline].

(** A file that imports the module itself. *)
Definition self_import : bytes :=
  B "package x" ++ nl ++ B "import " ++ Q "a/b" ++ nl
  ++ B "var _ = b.V" ++ nl.

Definition self_import_rewritten : bytes :=
  B "package x" ++ nl ++ B "import b " ++ Q "a/c" ++ nl
  ++ B "var _ = b.V" ++ nl.

(** A file that imports a package of the module whose path names the
    module twice, and a package of another module. *)
Definition subpackage_import : bytes :=
  B "package x" ++ nl ++ B "import " ++ Q "a/b/a/b" ++ nl
  ++ B "import " ++ Q "a/bb" ++ nl.

Definition subpackage_import_file_rewritten : bytes :=
  B "package x" ++ nl ++ B "import " ++ Q "a/c/a/b" ++ nl
  ++ B "import " ++ Q "a/bb" ++ nl.

(** A file whose import path is a raw string literal. *)
Definition raw_import : bytes :=
  B "package m" ++ nl ++ B "import "
  ++ [Plain.bquote] ++ B "example.com/m/sub" ++ [Plain.bquote] ++ nl.

Definition raw_import_rewritten : bytes :=
  B "package m" ++ nl ++ B "import " ++ Q "example.com/m/sub" ++ nl.

(** Files of packages [b] and [b_test]. *)
Definition package_b : bytes :=
  B "package b" ++ nl ++ B "import " ++ Q "fmt" ++ nl.

Definition package_b_test : bytes :=
  B "package b_test" ++ nl ++ B "import " ++ Q "a/b" ++ nl.

(** A spec with a literal that has lost its closing quote, between two
    sound ones. *)
Definition broken_spec : ImportSpec :=
  {| spec_Name := None;
     spec_Path := {| ValuePos := 30; Value := [Plain.dquote; "x"%char] |} |}.

Definition spec_at (p : Pos) (s : string) : ImportSpec :=
  {| spec_Name := None; spec_Path := {| ValuePos := p; Value := Q s |} |}.

(** What the parser makes of the sample files. *)
Definition self_import_ast : File :=
  {| file_Name := {| NamePos := 9; Name := B "x" |};
     Imports := [spec_at 18 "a/b"] |}.

Definition subpackage_import_ast : File :=
  {| file_Name := {| NamePos := 9; Name := B "x" |};
     Imports := [spec_at 18 "a/b/a/b"; spec_at 35 "a/bb"] |}.

Definition package_b_ast : File :=
  {| file_Name := {| NamePos := 9; Name := B "b" |};
     Imports := [spec_at 18 "fmt"] |}.

Definition package_b_test_ast : File :=
  {| file_Name := {| NamePos := 9; Name := B "b_test" |};
     Imports := [spec_at 23 "a/b"] |}.

Definition self_import_edits : list edit.Edit :=
  [{| edit.start := 17; edit.end_ := 17; edit.new := B "b " |};
   {| edit.start := 17; edit.end_ := 22; edit.new := Q "a/c" |}].

Definition stdout_of_download : bytes :=
  B "{" ++ Q "Dir" ++ B ":" ++ Q "/cache/t" ++ B "}".

Definition cache_entries : list WalkEntry :=
  [{| w_path := B "/cache/t"; w_isDir := true; w_err := false |};
   {| w_path := B "/cache/t/go.mod"; w_isDir := false; w_err := false |}].

Definition manifest_t : bytes := B "module example.com/t" ++ nl.
Definition manifest_m : bytes := B "module example.com/m" ++ nl.

(** A world in which the destination [./m] holds an entry [x] and
    reading it fails after that entry, the module cache holds a
    manifest, and there is no [template.yaml]. *)
Definition world_unreadable_destination (A : Type) (c : io A) : A :=
  match c in io A return A with
  | Usage => true
  | ReadDir _ => ([B "x"], false)
  | GoModDownload _ => (true, stdout_of_download)
  | MkdirAll _ => true
  | WalkDir _ => cache_entries
  | ReadFile name =>
      if bytes_eqb name (B "/cache/t/go.mod") then Some manifest_t else None
  | WriteFile _ _ => true
  | Prompt _ => None
  | Walk _ => []
  | Create _ => true
  | Execute _ _ _ => true
  end.

Definition run_into_nonempty_destination : list call :=
  [Call (ReadDir (B "./m")) ([B "x"], false);
   Call (GoModDownload (B "example.com/t@latest")) (true, stdout_of_download);
   Call (MkdirAll (B "./m")) true;
   Call (WalkDir (B "/cache/t")) cache_entries;
   Call (MkdirAll (B "./m")) true;
   Call (ReadFile (B "/cache/t/go.mod")) (Some manifest_t);
   Call (WriteFile (B "./m/go.mod") manifest_m) true;
   Call (ReadFile (B "./m/template.yaml")) None].

(** A world with an empty destination and a module cache that holds one
    Go file, which imports a package of the old module. *)
Definition cached_go_file : bytes :=
  B "package t" ++ nl ++ B "import " ++ Q "example.com/t/sub" ++ nl.

Definition world_go_file (A : Type) (c : io A) : A :=
  match c in io A return A with
  | Usage => true
  | ReadDir _ => ([], true)
  | GoModDownload _ => (true, stdout_of_download)
  | MkdirAll _ => true
  | WalkDir _ =>
      [{| w_path := B "/cache/t/t.go"; w_isDir := false; w_err := false |}]
  | ReadFile name =>
      if bytes_eqb name (B "/cache/t/t.go") then Some cached_go_file else None
  | WriteFile _ _ => true
  | Prompt _ => None
  | Walk _ => []
  | Create _ => true
  | Execute _ _ _ => true
  end.

Definition four_arguments : list bytes :=
  [B "no module"; B "example.com/m"; B "dir"; B "extra"].

End Examples.

(** ** Further notions *)

(** Where the import specs from [lo] on end: the end of the last path
    literal, or [lo] when there is none. *)
Definition specs_end (lo : Pos) (l : list ImportSpec) : Pos :=
  fold_left (fun _ s => BasicLit_End (spec_Path s)) l lo.

(** Where the header of a file ends: behind the last import path, or
    behind the package name of a file without imports. *)
Definition header_end (f : File) : Pos :=
  specs_end (Ident_End (file_Name f)) (Imports f).

(** The edit lies on the package name of [f] or on the path literal of
    one of its import specs (at its start, or over the whole of it). *)
Definition on_header (f : File) (e : edit.Edit) : Prop :=
  (edit.start e = at_ (NamePos (file_Name f))
   /\ edit.end_ e = at_ (Ident_End (file_Name f)))
  \/ exists spec,
       In spec (Imports f)
       /\ edit.start e = at_ (ValuePos (spec_Path spec))
       /\ (edit.end_ e = at_ (ValuePos (spec_Path spec))
           \/ edit.end_ e = at_ (BasicLit_End (spec_Path spec))).

(** The version [go mod download] is asked for: [args[0]] as it is when
    it names a version, and with [@latest] otherwise. *)
Definition version_of (arg0 : bytes) : bytes :=
  if negb (strings.Contains arg0 (B "@")) then arg0 ++ B "@latest"
  else arg0.

(** The bytes hold no [@]. *)
Definition no_at (m : bytes) : Prop := Forall (fun c => c <> "@"%char) m.

(** The new identity: [args[1]] when it is given, the old identity
    otherwise. *)
Definition new_identity (args : list bytes) : bytes :=
  match args with
  | _ :: arg1 :: _ => arg1
  | [arg0] => source_of arg0
  | [] => []
  end.

Section Phases.

Context {T : Toolchain} {M : Modfile} {P : Platform} {C : Codecs}.

(** What [initProject] does once the tree is copied: [readConfig],
    [runPrompts], [replaceVars]. *)
Definition after_copy (dir : bytes) : prog :=
  readConfig (Join dir (B "template.yaml")) (fun prompts =>
  runPrompts prompts [] (fun inputs =>
  replaceVars dir inputs Return)).

(** The walk over the module cache and what follows it. *)
Definition copy_phase (infoDir dir dst : bytes) : prog :=
  Do (WalkDir infoDir) (fun entries =>
  copy_tree infoDir dir dst entries (after_copy dir)).

(** [initProject] from the check of the destination directory on. *)
Definition checked_run (ver dir dst : bytes) : prog :=
  Do (ReadDir dir) (fun rd =>
  let (de, err_nil) := rd in
  if err_nil && (0 <? length de) then Exit DestinationError
  else
    Do (GoModDownload ver) (fun dl =>
    let (ran, stdout) := dl in
    if negb ran then Exit FetchError
    else
      match json_Dir stdout with
      | None => Exit FetchError
      | Some infoDir =>
          if negb err_nil then
            Do (MkdirAll dir) (fun ok =>
            if ok then copy_phase infoDir dir dst else Exit IOError)
          else copy_phase infoDir dir dst
      end)).

(** The call is a [go mod download] that succeeded and whose output
    names a directory. *)
Definition fetch_ok (c : call) : bool :=
  match c with
  | Call c0 r =>
      match c0 in io A return A -> bool with
      | GoModDownload _ =>
          fun r => fst r && negb (is_nil (json_Dir (snd r)))
      | _ => fun _ => false
      end r
  end.

(** No call of the trace writes before a fetch has succeeded. *)
Fixpoint no_write_until_fetch (tr : list call) : bool :=
  match tr with
  | [] => true
  | c :: tr' =>
      if fetch_ok c then true
      else negb (writes c) && no_write_until_fetch tr'
  end.

(** The calls of the copy: reading a file of the module cache, making
    the directory or writing the file that stands for an entry of the
    cache under the destination. *)
Definition copy_call (infoDir dir : bytes) (entries : list WalkEntry)
    (c : call) : Prop :=
  match c with
  | Call (ReadFile name) _ =>
      exists en, In en entries /\ w_isDir en = false /\ name = w_path en
  | Call (MkdirAll p) _ =>
      exists en rel,
        In en entries /\ w_isDir en = true
        /\ Rel infoDir (w_path en) = Some rel /\ p = Join dir rel
  | Call (WriteFile p _) _ =>
      exists en rel,
        In en entries /\ w_isDir en = false
        /\ Rel infoDir (w_path en) = Some rel /\ p = Join dir rel
  | _ => False
  end.

(** The calls of the expansion: reading a file of the new directory and,
    for the path of that file relative to the directory, making its
    directory, creating it and executing its template on the answers. *)
Definition expand_call (dir : bytes) (inputs : list (bytes * bytes))
    (entries : list WalkEntry) (c : call) : Prop :=
  match c with
  | Call (ReadFile name) _ =>
      exists en, In en entries /\ w_isDir en = false /\ name = w_path en
  | Call (MkdirAll p) _ =>
      exists en rel,
        In en entries /\ w_isDir en = false
        /\ Rel dir (w_path en) = Some rel /\ p = Dir (Join dir rel)
  | Call (Create p) _ =>
      exists en rel,
        In en entries /\ w_isDir en = false
        /\ Rel dir (w_path en) = Some rel /\ p = Join dir rel
  | Call (Execute _ vars p) _ =>
      exists en rel,
        In en entries /\ w_isDir en = false
        /\ Rel dir (w_path en) = Some rel /\ p = Join dir rel
        /\ vars = inputs
  | _ => False
  end.

(** The prompts of a configuration with the answers given to them. *)
Definition prompt_calls (config : list (bytes * bytes)) (names : list bytes)
    : list call :=
  map (fun dn => Call (Prompt (fst dn)) (Some (snd dn)))
    (combine (map snd config) names).

(** The calls of [tr] have copied the entry of the cache: its directory
    was made, or it was read and a file was written, at the path of the
    entry relative to the cache joined to the destination. *)
Definition copied (infoDir dir : bytes) (tr : list call) (en : WalkEntry)
    : Prop :=
  exists rel,
    Rel infoDir (w_path en) = Some rel
    /\ if w_isDir en then In (Call (MkdirAll (Join dir rel)) true) tr
       else exists data out,
         In (Call (ReadFile (w_path en)) (Some data)) tr
         /\ In (Call (WriteFile (Join dir rel) out) true) tr.

(** The calls of [tr] have expanded the entry of the new directory when
    it is a file: it was read, its content parsed as a template, and the
    template executed on [inputs]. *)
Definition expanded (dir : bytes) (inputs : list (bytes * bytes))
    (tr : list call) (en : WalkEntry) : Prop :=
  w_isDir en = false ->
  exists rel content tmpl,
    Rel dir (w_path en) = Some rel
    /\ In (Call (ReadFile (w_path en)) (Some content)) tr
    /\ template_Parse rel content = Some tmpl
    /\ In (Call (Execute tmpl inputs (Join dir rel)) true) tr.

(** The call belongs to the copy of this run: among the calls of [tr]
    are a fetch that succeeded and named the directory [infoDir] of the
    module, and a listing of that directory, and the call is a call of
    the copy for an entry of that listing. *)
Definition copy_write (dir : bytes) (tr : list call) (c : call) : Prop :=
  exists ver stdout infoDir entries,
    In (Call (GoModDownload ver) (true, stdout)) tr
    /\ json_Dir stdout = Some infoDir
    /\ In (Call (WalkDir infoDir) entries) tr
    /\ copy_call infoDir dir entries c.

(** The call belongs to the expansion of this run: among the calls of
    [tr] is a listing of the destination, and the call is a call of the
    expansion for a file entry of that listing. *)
Definition expansion_write (dir : bytes) (tr : list call) (c : call)
    : Prop :=
  exists inputs walked,
    In (Call (Walk dir) walked) tr /\ expand_call dir inputs walked c.

(** The call makes the destination directory itself. *)
Definition makes_destination (dir : bytes) (c : call) : Prop :=
  match c with
  | Call (MkdirAll p) _ => p = dir
  | _ => False
  end.

(** A call that makes a directory or creates or writes a file makes the
    destination, or belongs to the copy or to the expansion of the run. *)
Definition listed_write (dir : bytes) (tr : list call) (c : call) : Prop :=
  writes c = true ->
  makes_destination dir c \/ copy_write dir tr c \/ expansion_write dir tr c.

(** The calls of [tr] have made the project: the cache was listed and
    every entry copied, the configuration read from the destination,
    every prompt answered, the destination listed and every file of it
    expanded with the answers under the keys of the configuration. *)
Definition project_made (infoDir dir : bytes) (tr : list call) : Prop :=
  exists entries content config names walked,
    In (Call (WalkDir infoDir) entries) tr
    /\ Forall (copied infoDir dir tr) entries
    /\ In (Call (ReadFile (Join dir (B "template.yaml"))) (Some content)) tr
    /\ yaml_map content = Some config
    /\ length names = length config
    /\ incl (prompt_calls config names) tr
    /\ In (Call (Walk dir) walked) tr
    /\ Forall (expanded dir (combine (map fst config) names) tr) walked.

End Phases.

(** ** A run that returns *)

Module Tour.

Import Sample Examples.

#[local] Existing Instance Plain.toolchain.
#[local] Existing Instance modfile.
#[local] Existing Instance platform.
#[local] Existing Instance codecs.

Definition arguments : list bytes := [B "example.com/t"; B "example.com/m"].

Definition config_file : bytes := B "name: Project name" ++ nl.

Definition config : list (bytes * bytes) := [(B "name", B "Project name")].

Definition new_entries : list WalkEntry :=
  [{| w_path := B "./m"; w_isDir := true; w_err := false |};
   {| w_path := B "./m/go.mod"; w_isDir := false; w_err := false |};
   {| w_path := B "./m/template.yaml"; w_isDir := false; w_err := false |}].

(** A world without the destination [./m], with a module cache that
    holds a manifest and a configuration of one entry, and a user who
    answers [demo]. *)
Definition world (A : Type) (c : io A) : A :=
  match c in io A return A with
  | Usage => true
  | ReadDir _ => ([], false)
  | GoModDownload _ => (true, stdout_of_download)
  | MkdirAll _ => true
  | WalkDir _ =>
      cache_entries
      ++ [{| w_path := B "/cache/t/template.yaml"; w_isDir := false;
             w_err := false |}]
  | ReadFile name =>
      if bytes_eqb name (B "./m/go.mod") then Some manifest_m
      else if strings.HasSuffix name (B "/go.mod") then Some manifest_t
      else if strings.HasSuffix name (B "/template.yaml")
      then Some config_file
      else None
  | WriteFile _ _ => true
  | Prompt _ => Some (B "demo")
  | Walk _ => new_entries
  | Create _ => true
  | Execute _ _ _ => true
  end.

Definition run : list call := fst (exec world (initProject arguments)).

(** The Go file of the cache of [world_go_file], as the walk and the
    parser give it. *)
Definition go_entry : WalkEntry :=
  {| w_path := B "/cache/t/t.go"; w_isDir := false; w_err := false |}.

Definition cached_go_file_ast : File :=
  {| file_Name := {| NamePos := 9; Name := B "t" |};
     Imports := [spec_at 18 "example.com/t/sub"] |}.

(** A manifest below the root of the cache. *)
Definition nested_manifest : WalkEntry :=
  {| w_path := B "/cache/t/sub/go.mod"; w_isDir := false; w_err := false |}.

(** A user who cancels the prompt. *)
Definition world_cancelled (A : Type) (c : io A) : A :=
  match c in io A return A with
  | Prompt _ => None
  | c => world c
  end.

End Tour.
(** * Properties *)

(** ** Bytes and strings *)

Lemma bytes_eqb_eq (a b : bytes) : bytes_eqb a b = true <-> a = b.
Proof.
  revert b; induction a as [|x a IH]; intros [|y b]; simpl;
    try (split; (reflexivity || discriminate)).
  rewrite andb_true_iff, Ascii.eqb_eq, IH.
  split; [intros [-> ->]; reflexivity | intros H; inversion H; auto].
Qed.

Lemma bytes_eqb_refl (a : bytes) : bytes_eqb a a = true.
Proof. apply bytes_eqb_eq; reflexivity. Qed.

Lemma bytes_eqb_neq (a b : bytes) : bytes_eqb a b = false <-> a <> b.
Proof.
  rewrite <- bytes_eqb_eq. destruct (bytes_eqb a b); split; congruence.
Qed.

Lemma HasPrefix_app (p t : bytes) : strings.HasPrefix (p ++ t) p = true.
Proof.
  unfold strings.HasPrefix. rewrite length_app, firstn_app, Nat.sub_diag.
  rewrite firstn_all, app_nil_r, bytes_eqb_refl, andb_true_r.
  apply Nat.leb_le; lia.
Qed.

Lemma HasPrefix_longer (s p : bytes) :
  length s < length p -> strings.HasPrefix s p = false.
Proof.
  intros H. unfold strings.HasPrefix.
  destruct (Nat.leb_spec (length p) (length s)); [lia | reflexivity].
Qed.

Lemma Index_prefix (s sub : bytes) :
  strings.HasPrefix s sub = true -> strings.Index s sub = Some 0.
Proof. intros H. destruct s; simpl; rewrite H; reflexivity. Qed.

Lemma Replace1_prefix (o n t : bytes) :
  strings.Replace1 (o ++ t) o n = n ++ t.
Proof.
  unfold strings.Replace1.
  destruct (bytes_eqb o n) eqn:E.
  - apply bytes_eqb_eq in E; subst; reflexivity.
  - rewrite (Index_prefix _ _ (HasPrefix_app o t)). simpl.
    rewrite skipn_app, Nat.sub_diag, skipn_all. reflexivity.
Qed.

Lemma TrimPrefix_app (p t : bytes) : strings.TrimPrefix (p ++ t) p = t.
Proof.
  unfold strings.TrimPrefix. rewrite HasPrefix_app.
  rewrite skipn_app, Nat.sub_diag, skipn_all. reflexivity.
Qed.

Lemma TrimPrefix_self (p : bytes) : strings.TrimPrefix p p = [].
Proof.
  rewrite <- (app_nil_r p) at 1. apply TrimPrefix_app.
Qed.

Lemma slice_skipn (s : bytes) (i j : nat) :
  i <= j -> slice s i j ++ skipn j s = skipn i s.
Proof.
  intros H. unfold slice.
  replace (skipn j s) with (skipn (j - i) (skipn i s)).
  - apply firstn_skipn.
  - rewrite skipn_skipn. f_equal; lia.
Qed.

Lemma firstn_plus (s : bytes) (a b : nat) :
  firstn (a + b) s = firstn a s ++ firstn b (skipn a s).
Proof.
  revert s; induction a as [|a IH]; intros [|x s]; simpl;
    rewrite ?firstn_nil; try reflexivity.
  f_equal. apply IH.
Qed.

Lemma slice_split (s : bytes) (i j k : nat) :
  i <= j -> j <= k -> slice s i k = slice s i j ++ slice s j k.
Proof.
  intros Hij Hjk. unfold slice.
  replace (k - i) with ((j - i) + (k - j)) by lia.
  rewrite firstn_plus. f_equal.
  rewrite skipn_skipn. do 2 f_equal. lia.
Qed.

Lemma slice_firstn (s : bytes) (c i j : nat) :
  j <= c -> slice (firstn c s) i j = slice s i j.
Proof.
  intros H. unfold slice.
  rewrite skipn_firstn_comm, firstn_firstn.
  f_equal. lia.
Qed.

Lemma slice_nil (s : bytes) (i : nat) : slice s i i = [].
Proof. unfold slice. rewrite Nat.sub_diag. reflexivity. Qed.

Lemma skipn_firstn_slice (s : bytes) (i c : nat) :
  skipn i (firstn c s) = slice s i c.
Proof. unfold slice. apply skipn_firstn_comm. Qed.

(** ** The patch buffer on edits queued in source order *)

Module EditFacts.
Import edit.

Lemma chain_weaken (lo lo' : nat) (l : list Edit) :
  lo' <= lo -> chain lo l -> chain lo' l.
Proof. destruct l; simpl; intuition lia. Qed.

Lemma chain_app (lo : nat) (l1 l2 : list Edit) :
  chain lo (l1 ++ l2) <-> chain lo l1 /\ chain (last_end lo l1) l2.
Proof.
  revert lo; induction l1 as [|e l1 IH]; intros lo; simpl.
  - tauto.
  - unfold last_end; simpl. fold (last_end (end_ e) l1).
    rewrite IH. tauto.
Qed.

Lemma chain_last_end (lo : nat) (l : list Edit) :
  chain lo l -> lo <= last_end lo l.
Proof.
  revert lo; induction l as [|e l IH]; intros lo; simpl; [lia|].
  intros (H1 & H2 & H3). unfold last_end; simpl.
  specialize (IH _ H3). unfold last_end in IH. lia.
Qed.

Lemma chain_within (lo : nat) (l : list Edit) :
  chain lo l ->
  Forall (fun e => lo <= start e /\ start e <= end_ e
                   /\ end_ e <= last_end lo l) l.
Proof.
  revert lo; induction l as [|e l IH]; intros lo; simpl; [constructor|].
  intros (H1 & H2 & H3). unfold last_end; simpl. fold (last_end (end_ e) l).
  pose proof (chain_last_end _ _ H3) as H4.
  constructor; [lia|].
  eapply Forall_impl; [|apply (IH _ H3)]. simpl. intros a. lia.
Qed.

Lemma chain_sorted (lo : nat) (l : list Edit) :
  chain lo l -> sort_edits l = l.
Proof.
  revert lo; induction l as [|e l IH]; intros lo; simpl; [reflexivity|].
  intros (H1 & H2 & H3). rewrite (IH _ H3).
  destruct l as [|x l]; [reflexivity|]. simpl.
  destruct H3 as (H3 & H4 & _).
  assert (E : edit_leb e x = true).
  { unfold edit_leb, is_insert.
    destruct (Nat.ltb_spec (start e) (start x)); [reflexivity|]. simpl.
    assert (start e = start x /\ start e = end_ e) as [-> ->] by lia.
    rewrite !Nat.eqb_refl. reflexivity. }
  rewrite E. reflexivity.
Qed.

Lemma walk_chain_ok (data : bytes) (lo : nat) (l : list Edit) :
  chain lo l -> exists r, walk data lo l = Ok r.
Proof.
  revert lo; induction l as [|e l IH]; intros lo; simpl.
  - eauto.
  - intros (H1 & H2 & H3).
    destruct (Nat.ltb_spec (start e) lo); [lia|].
    destruct (IH _ H3) as [r ->]. simpl. eauto.
Qed.

(** Moving the starting offset up to [c], before the first edit. *)
Lemma walk_shift (data : bytes) (lo c : nat) (l : list Edit) :
  lo <= c -> Forall (fun e => c <= start e) l ->
  walk data lo l = r <- walk data c l ;; Ok (slice data lo c ++ r).
Proof.
  intros Hlo Hl. destruct l as [|e l]; simpl.
  - rewrite slice_skipn by lia. reflexivity.
  - inversion Hl as [|? ? He _]; subst.
    destruct (Nat.ltb_spec (start e) lo); [lia|].
    destruct (Nat.ltb_spec (start e) c); [lia|].
    destruct (walk data (end_ e) l); simpl; [|reflexivity].
    rewrite (slice_split data (i:=lo) (j:=c) (k:=start e)) by lia.
    rewrite <- app_assoc. reflexivity.
Qed.

(** The pass over [l1 ++ l2] is the pass over [l1] on the bytes before
    [c] followed by the pass over [l2] from [c] on, when [c] separates
    the two lists. *)
Lemma walk_split (data : bytes) (c : nat) (l1 l2 : list Edit) (lo : nat) :
  lo <= c ->
  Forall (fun e => start e <= c /\ end_ e <= c) l1 ->
  Forall (fun e => c <= start e) l2 ->
  walk data lo (l1 ++ l2) =
    a <- walk (firstn c data) lo l1 ;;
    b <- walk data c l2 ;; Ok (a ++ b).
Proof.
  revert lo; induction l1 as [|e l1 IH]; intros lo Hlo H1 H2; simpl.
  - rewrite skipn_firstn_slice. apply walk_shift; assumption.
  - inversion H1 as [|? ? [Hs He] H1']; subst.
    destruct (Nat.ltb_spec (start e) lo); [reflexivity|].
    rewrite (IH (end_ e)) by assumption.
    rewrite slice_firstn by lia.
    destruct (walk (firstn c data) (end_ e) l1); simpl; [|reflexivity].
    destruct (walk data c l2); simpl; [|reflexivity].
    rewrite <- !app_assoc. reflexivity.
Qed.

(** Edits that put back the bytes they cover change nothing. *)
Lemma walk_identity (data : bytes) (lo : nat) (l : list Edit) :
  chain lo l ->
  Forall (fun e => new e = slice data (start e) (end_ e)) l ->
  walk data lo l = Ok (skipn lo data).
Proof.
  revert lo; induction l as [|e l IH]; intros lo; simpl; [reflexivity|].
  intros (H1 & H2 & H3) Hn. inversion Hn as [|? ? He Hn']; subst.
  destruct (Nat.ltb_spec (start e) lo); [lia|].
  rewrite (IH _ H3 Hn'). simpl. rewrite He.
  rewrite (slice_skipn data H2), (slice_skipn data H1). reflexivity.
Qed.

Lemma walk_replace (data : bytes) (p e : nat) (t : bytes) (l : list Edit)
    (r : bytes) :
  walk data e l = Ok r ->
  walk data p ({| start := p; end_ := e; new := t |} :: l) = Ok (t ++ r).
Proof.
  intros H. simpl. rewrite Nat.ltb_irrefl, H. simpl.
  rewrite slice_nil. reflexivity.
Qed.

Lemma chain_nth_order (lo : nat) (l : list Edit) (i j : nat) (a b : Edit) :
  chain lo l -> nth_error l i = Some a -> nth_error l j = Some b ->
  i < j -> end_ a <= start b.
Proof.
  revert lo i j; induction l as [|e l IH]; intros lo i j Hc Hi Hj Hij.
  - destruct i; discriminate.
  - destruct Hc as (H1 & H2 & H3).
    destruct j as [|j]; [lia|]. simpl in Hj.
    destruct i as [|i]; simpl in Hi.
    + inversion Hi; subst.
      pose proof (chain_within _ _ H3) as Hw.
      rewrite Forall_forall in Hw.
      apply nth_error_In in Hj. apply Hw in Hj. lia.
    + apply (IH (end_ e) i j); auto. lia.
Qed.

Lemma chain_nth_range (lo : nat) (l : list Edit) (i : nat) (a : Edit) :
  chain lo l -> nth_error l i = Some a -> start a <= end_ a.
Proof.
  intros Hc Hi. apply chain_within in Hc. rewrite Forall_forall in Hc.
  apply nth_error_In in Hi. apply Hc in Hi. lia.
Qed.

End EditFacts.

(** ** The edits [fixGo] queues *)

Section Plan.

Context {T : Toolchain}.
Variables (data srcMod dstMod : bytes).

Lemma fixImport_queue (buf : edit.Buffer) (spec : ImportSpec) :
  fixImport srcMod dstMod (path.Base srcMod) (path.Base dstMod) buf spec =
  {| edit.old := edit.old buf;
     edit.q := edit.q buf ++ import_edits srcMod dstMod spec |}.
Proof.
  unfold import_edits, fixImport. destruct buf as [o l]. cbv zeta.
  destruct (Unquote (Value (spec_Path spec))) as [p|];
    [|simpl; rewrite app_nil_r; reflexivity].
  destruct (bytes_eqb p srcMod);
    destruct (negb (bytes_eqb (path.Base srcMod) (path.Base dstMod))
              && is_nil (spec_Name spec));
    destruct (strings.HasPrefix p (srcMod ++ B "/"));
    unfold edit.Replace, edit.Insert, edit.NewBuffer; simpl;
    rewrite <- ?app_assoc, ?app_nil_r; reflexivity.
Qed.

Lemma fold_fixImport_queue (l : list ImportSpec) (buf : edit.Buffer) :
  fold_left (fixImport srcMod dstMod (path.Base srcMod) (path.Base dstMod))
    l buf =
  {| edit.old := edit.old buf;
     edit.q := edit.q buf ++ flat_map (import_edits srcMod dstMod) l |}.
Proof.
  revert buf; induction l as [|s l IH]; intros buf; simpl.
  - rewrite app_nil_r. destruct buf; reflexivity.
  - rewrite IH, fixImport_queue. simpl. rewrite app_assoc. reflexivity.
Qed.

Lemma self_not_subpackage (p : bytes) :
  bytes_eqb p srcMod = true -> strings.HasPrefix p (srcMod ++ B "/") = false.
Proof.
  intros H. apply bytes_eqb_eq in H. subst p.
  apply HasPrefix_longer. rewrite length_app. simpl. lia.
Qed.

Lemma text_at_spec (p : Pos) (s : bytes) :
  text_at data p s = true ->
  1 <= p /\ 1 <= length s /\ at_ (p + length s) = at_ p + length s
  /\ slice data (at_ p) (at_ (p + length s)) = s.
Proof.
  unfold text_at. rewrite !andb_true_iff, !Nat.leb_le, bytes_eqb_eq.
  intros [[H1 H2] H3].
  assert (E : at_ (p + length s) = at_ p + length s) by (unfold at_; lia).
  rewrite E. auto.
Qed.

Lemma spec_ok_spec (lo : Pos) (s : ImportSpec) :
  spec_ok data lo s = true ->
  lo <= ValuePos (spec_Path s)
  /\ text_at data (ValuePos (spec_Path s)) (Value (spec_Path s)) = true.
Proof.
  unfold spec_ok. rewrite andb_true_iff. intros [H1 H2]. split; [|exact H2].
  destruct (spec_Name s) as [x|].
  - rewrite !andb_true_iff, !Nat.leb_le in H1. unfold Ident_End in H1. lia.
  - apply Nat.leb_le in H1. exact H1.
Qed.

(** The edits of one spec lie on its path literal. *)
Lemma import_edits_chain (spec : ImportSpec) (lo : nat)
    (rest : list edit.Edit) :
  text_at data (ValuePos (spec_Path spec)) (Value (spec_Path spec)) = true ->
  lo <= at_ (ValuePos (spec_Path spec)) ->
  chain (at_ (BasicLit_End (spec_Path spec))) rest ->
  chain lo (import_edits srcMod dstMod spec ++ rest).
Proof.
  intros Ht Hlo Hrest. apply text_at_spec in Ht.
  destruct Ht as (H1 & H2 & H3 & _).
  fold (BasicLit_End (spec_Path spec)) in H3.
  assert (Hweak : chain lo rest).
  { eapply EditFacts.chain_weaken; [|exact Hrest]. lia. }
  unfold import_edits, fixImport. cbv zeta.
  destruct (Unquote (Value (spec_Path spec))) as [p|]; [|exact Hweak].
  destruct (bytes_eqb p srcMod) eqn:E.
  - rewrite (self_not_subpackage _ E).
    destruct (negb (bytes_eqb (path.Base srcMod) (path.Base dstMod))
              && is_nil (spec_Name spec));
      simpl; intuition lia.
  - destruct (strings.HasPrefix p (srcMod ++ B "/")); simpl;
      [intuition lia | exact Hweak].
Qed.

Lemma imports_chain (l : list ImportSpec) (lo : Pos) (lo' : nat) :
  specs_ok data lo l = true -> lo' <= at_ lo ->
  chain lo' (flat_map (import_edits srcMod dstMod) l).
Proof.
  revert lo lo'; induction l as [|s l IH]; intros lo lo' Hok Hlo; simpl;
    [exact I|].
  simpl in Hok. apply andb_true_iff in Hok. destruct Hok as [Hs Hl].
  apply spec_ok_spec in Hs. destruct Hs as [Hp Ht].
  apply import_edits_chain; [exact Ht | unfold at_ in *; lia |].
  apply (IH _ _ Hl). lia.
Qed.

Lemma fixPackage_queue (buf b : edit.Buffer) (f : File) (isRoot : bool) :
  fixPackage buf f (path.Base srcMod) (path.Base dstMod) isRoot = Ok b ->
  b = {| edit.old := edit.old buf;
         edit.q := edit.q buf ++ package_edits srcMod dstMod f isRoot |}.
Proof.
  unfold package_edits, fixPackage. destruct buf as [o l]. cbv zeta.
  destruct isRoot;
    [|intros H; inversion H; simpl; rewrite app_nil_r; reflexivity].
  destruct (bytes_eqb _ _ || bytes_eqb _ _);
    [|intros H; inversion H; simpl; rewrite app_nil_r; reflexivity].
  destruct (negb (IsIdentifier _));
    [discriminate|].
  intros H; inversion H. reflexivity.
Qed.

Lemma package_edits_chain (f : File) (isRoot : bool)
    (rest : list edit.Edit) :
  text_at data (NamePos (file_Name f)) (Name (file_Name f)) = true ->
  chain (at_ (Ident_End (file_Name f))) rest ->
  chain 0 (package_edits srcMod dstMod f isRoot ++ rest).
Proof.
  intros Ht Hrest. apply text_at_spec in Ht.
  destruct Ht as (H1 & H2 & H3 & _). fold (Ident_End (file_Name f)) in H3.
  assert (Hweak : chain 0 rest).
  { eapply EditFacts.chain_weaken; [|exact Hrest]. lia. }
  unfold package_edits, fixPackage. cbv zeta.
  destruct isRoot; [|exact Hweak].
  destruct (bytes_eqb _ _ || bytes_eqb _ _);
    [|exact Hweak].
  destruct (negb (IsIdentifier _));
    [exact Hweak|].
  simpl. intuition lia.
Qed.

(** The buffer [fixGo] hands to [Bytes]: the original bytes, the edit of
    the package clause and the edits of the import specs in order. *)
Lemma fixGo_buffer_queue (f : File) (isRoot : bool) (b : edit.Buffer) :
  fixGo_buffer data f srcMod dstMod isRoot = Ok b ->
  b = {| edit.old := data;
         edit.q := package_edits srcMod dstMod f isRoot
                   ++ flat_map (import_edits srcMod dstMod) (Imports f) |}.
Proof.
  unfold fixGo_buffer. cbv zeta.
  destruct (fixPackage (edit.NewBuffer data) f _ _ isRoot) as [b0|] eqn:E;
    [|discriminate].
  apply fixPackage_queue in E. subst b0. simpl.
  rewrite fold_fixImport_queue. simpl. intros H; inversion H. reflexivity.
Qed.

(** The buffer of a file whose positions the parser vouches for holds a
    chain of edits. *)
Lemma plan_chain (f : File) (isRoot : bool) :
  header_ok data f = true ->
  chain 0 (package_edits srcMod dstMod f isRoot
           ++ flat_map (import_edits srcMod dstMod) (Imports f)).
Proof.
  unfold header_ok. rewrite !andb_true_iff. intros [[Hn _] Hs].
  apply package_edits_chain; [exact Hn|].
  apply (imports_chain _ _ Hs). lia.
Qed.

End Plan.

(** ** [fixGo] never overlaps its edits *)

(** On a parsed file [fixGo] returns the rewritten bytes, or gives up on
    a package name that is no identifier; the patch buffer never meets
    overlapping edits. *)
Lemma fixGo_total {T : Toolchain} (data file srcMod dstMod : bytes)
    (isRoot : bool) (f : File) :
  ParseFile file data = Some f ->
  header_ok data f = true ->
  (exists out, fixGo data file srcMod dstMod isRoot = Ok out)
  \/ (exists name dname,
        fixGo data file srcMod dstMod isRoot = Fatal (PlanError name dname)).
Proof.
  intros Hparse Hok. unfold fixGo. rewrite Hparse. unfold fixGo_parsed.
  destruct (fixGo_buffer data f srcMod dstMod isRoot) as [b|e] eqn:Eb.
  - left. apply fixGo_buffer_queue in Eb. subst b.
    pose proof (plan_chain data srcMod dstMod f isRoot Hok) as Hc.
    unfold bind, edit.Bytes. cbn [edit.old edit.q].
    rewrite (EditFacts.chain_sorted _ _ Hc).
    apply (EditFacts.walk_chain_ok data _ _ Hc).
  - right. unfold fixGo_buffer, fixPackage in Eb. cbv zeta in Eb.
    destruct isRoot; [|discriminate].
    destruct (bytes_eqb _ _ || bytes_eqb _ _); [|discriminate].
    destruct (negb (IsIdentifier _)); [|discriminate].
    inversion Eb. simpl. eauto.
Qed.

(** ** The bytes around one import spec *)

Section Around.

Context {T : Toolchain}.
Variables (data file srcMod dstMod : bytes) (isRoot : bool).
Variables (f : File) (b0 : edit.Buffer) (l1 l2 : list ImportSpec)
  (spec : ImportSpec).

Let srcName := path.Base srcMod.
Let dstName := path.Base dstMod.
Let p := at_ (ValuePos (spec_Path spec)).
Let e := at_ (BasicLit_End (spec_Path spec)).

Hypothesis Hparse : ParseFile file data = Some f.
Hypothesis Hok : header_ok data f = true.
Hypothesis Himports : Imports f = l1 ++ spec :: l2.
Hypothesis Hpkg :
  fixPackage (edit.NewBuffer data) f srcName dstName isRoot = Ok b0.

(** When the spec has edits, from the start of its literal to the end of
    it, the output is what was written so far on the bytes before the
    literal, then the pass over the edits of the spec and of the later
    specs. *)
Lemma fixGo_around (x : edit.Edit) (se : list edit.Edit) :
  import_edits srcMod dstMod spec = x :: se ->
  edit.start x = p ->
  last_end (edit.end_ x) se = e ->
  let qb :=
    edit.q (fold_left (fixImport srcMod dstMod srcName dstName) l1 b0) in
  let qa := edit.q (fold_left (fixImport srcMod dstMod srcName dstName) l2
                      (edit.NewBuffer data)) in
  exists before after,
    edit.walk (firstn p data) 0 qb = Ok before
    /\ edit.walk data e qa = Ok after
    /\ forall r, edit.walk data p (x :: se ++ qa) = Ok r ->
         fixGo data file srcMod dstMod isRoot = Ok (before ++ r).
Proof.
  intros Hse Hx Hend qb qa.
  pose proof (fixPackage_queue _ _ _ _ _ Hpkg) as Eb0. simpl in Eb0.
  assert (Eqb : qb = package_edits srcMod dstMod f isRoot
                     ++ flat_map (import_edits srcMod dstMod) l1).
  { unfold qb. fold srcName dstName.
    rewrite fold_fixImport_queue, Eb0. reflexivity. }
  assert (Eqa : qa = flat_map (import_edits srcMod dstMod) l2).
  { unfold qa. rewrite fold_fixImport_queue. reflexivity. }
  pose proof (plan_chain data srcMod dstMod f isRoot Hok) as Hc.
  rewrite Himports, flat_map_app in Hc. simpl in Hc.
  rewrite Hse, app_assoc, <- Eqb, <- Eqa in Hc.
  apply EditFacts.chain_app in Hc. destruct Hc as [Hcb Hca].
  pose proof Hca as Hca'. simpl in Hca'. destruct Hca' as (Hlo & Hxe & Htail).
  apply EditFacts.chain_app in Htail. destruct Htail as [_ Hqa].
  rewrite Hend in Hqa.
  destruct (EditFacts.walk_chain_ok (firstn p data) _ _ Hcb) as [before Hb].
  destruct (EditFacts.walk_chain_ok data _ _ Hqa) as [after Ha].
  exists before, after. split; [exact Hb|]. split; [exact Ha|].
  assert (Hall : chain 0 (qb ++ (x :: se) ++ qa)).
  { apply EditFacts.chain_app. split; assumption. }
  assert (EL : fixGo data file srcMod dstMod isRoot
               = edit.walk data 0 (qb ++ (x :: se) ++ qa)).
  { unfold fixGo. rewrite Hparse. unfold fixGo_parsed, fixGo_buffer.
    cbv zeta. fold srcName dstName. rewrite Hpkg. unfold bind.
    rewrite Himports, fold_fixImport_queue, flat_map_app. unfold edit.Bytes.
    cbn [edit.old edit.q flat_map]. rewrite Hse, <- Eqa, Eb0.
    cbn [edit.old edit.q]. rewrite app_assoc, <- Eqb.
    rewrite (EditFacts.chain_sorted _ _ Hall). reflexivity. }
  intros r Hr. rewrite EL.
  rewrite (@EditFacts.walk_split data p qb ((x :: se) ++ qa) 0).
  - rewrite Hb. simpl app. rewrite Hr. reflexivity.
  - lia.
  - pose proof (EditFacts.chain_within _ _ Hcb) as Hw.
    eapply Forall_impl; [|exact Hw]. simpl. intros a. lia.
  - simpl. constructor; [lia|].
    assert (Hc2 : chain (edit.end_ x) (se ++ qa)).
    { simpl in Hca. tauto. }
    pose proof (EditFacts.chain_within _ _ Hc2) as Hw.
    eapply Forall_impl; [|exact Hw]. simpl. intros a. lia.
Qed.

End Around.

(** ** The sample parser keeps the parser's promise *)

Module PlainFacts.
Import Plain.

Lemma span_app (p : ascii -> bool) (s a b : bytes) :
  span p s = (a, b) -> s = a ++ b.
Proof.
  revert a b; induction s as [|c s IH]; intros a b; simpl.
  - intros H; inversion H; reflexivity.
  - destruct (p c).
    + destruct (span p s) as [a' b']. intros H; inversion H; subst.
      simpl. f_equal. apply IH. reflexivity.
    + intros H; inversion H; reflexivity.
Qed.

Lemma expect_app (kw s r : bytes) : expect kw s = Some r -> s = kw ++ r.
Proof.
  unfold expect, strings.HasPrefix.
  destruct (length kw <=? length s) eqn:L; simpl; [|discriminate].
  destruct (bytes_eqb (firstn (length kw) s) kw) eqn:E; [|discriminate].
  apply bytes_eqb_eq in E. intros H; inversion H; subst r.
  rewrite <- E at 1. symmetry. apply firstn_skipn.
Qed.

Lemma scan_ident_app (s x rest : bytes) :
  scan_ident s = Some (x, rest) ->
  s = x ++ rest /\ IsIdentifier x = true /\ 1 <= length x.
Proof.
  unfold scan_ident.
  destruct (span (fun c => is_letter c || is_digit c) s) as [a b] eqn:E.
  destruct (IsIdentifier a) eqn:I; [|discriminate].
  intros H; inversion H; subst. split; [apply (span_app _ _ E)|].
  split; [exact I|]. destruct x; [discriminate | simpl; lia].
Qed.

Lemma scan_string_app (s lit rest : bytes) :
  scan_string s = Some (lit, rest) -> s = lit ++ rest /\ 1 <= length lit.
Proof.
  unfold scan_string. destruct s as [|q s]; [discriminate|].
  destruct (Ascii.eqb q dquote || Ascii.eqb q bquote); [|discriminate].
  destruct (span (plain_char q) s) as [body r] eqn:E.
  destruct r as [|c r]; [discriminate|].
  destruct (Ascii.eqb c q) eqn:Q; [|discriminate].
  apply Ascii.eqb_eq in Q. subst c.
  intros H; inversion H; subst. split; [|simpl; lia].
  simpl. f_equal. rewrite <- app_assoc. apply (span_app _ _ E).
Qed.

Lemma text_at_middle (pre x post : bytes) (p : Pos) :
  p = length pre + 1 -> 1 <= length x ->
  text_at (pre ++ x ++ post) p x = true.
Proof.
  intros -> Hx. unfold text_at.
  rewrite !andb_true_iff, !Nat.leb_le, bytes_eqb_eq.
  split; [lia|]. unfold at_, slice.
  replace (length pre + 1 - 1) with (length pre) by lia.
  replace (length pre + length x - length pre) with (length x) by lia.
  rewrite skipn_app, Nat.sub_diag, skipn_all. simpl.
  rewrite firstn_app, Nat.sub_diag, firstn_all. simpl. apply app_nil_r.
Qed.

Lemma scan_spec_ok (s rest pre : bytes) (p lo : Pos) (spec : ImportSpec) :
  scan_spec s p = Some (spec, rest) ->
  p = length pre + 1 -> lo <= p ->
  spec_ok (pre ++ s) lo spec = true
  /\ exists used, s = used ++ rest
       /\ BasicLit_End (spec_Path spec) = length (pre ++ used) + 1.
Proof.
  unfold scan_spec. intros H Hp Hlo.
  destruct (scan_string s) as [[lit r]|] eqn:S1.
  - inversion H; subst spec r; clear H.
    apply scan_string_app in S1. destruct S1 as [-> Hl].
    split.
    + unfold spec_ok. simpl. rewrite (text_at_middle pre lit rest Hp Hl).
      destruct (Nat.leb_spec lo p); [reflexivity | lia].
    + exists lit. split; [reflexivity|].
      unfold BasicLit_End. simpl. rewrite length_app. lia.
  - destruct (scan_ident s) as [[x s1]|] eqn:S2; [|discriminate].
    destruct (expect (B " ") s1) as [s2|] eqn:S3; [|discriminate].
    destruct (scan_string s2) as [[lit r]|] eqn:S4; [|discriminate].
    inversion H; subst spec r; clear H.
    apply scan_ident_app in S2. destruct S2 as (-> & _ & Hx).
    apply expect_app in S3. subst s1.
    apply scan_string_app in S4. destruct S4 as [-> Hl].
    split.
    + unfold spec_ok. cbn [spec_Name spec_Path ValuePos Value NamePos Name].
      rewrite (text_at_middle pre x (B " " ++ lit ++ rest) Hp Hx).
      assert (E : pre ++ x ++ B " " ++ lit ++ rest
                  = (pre ++ x ++ B " ") ++ lit ++ rest)
        by (rewrite <- !app_assoc; reflexivity).
      rewrite E.
      rewrite (@text_at_middle (pre ++ x ++ B " ") lit rest
                 (p + length x + 1)); [| rewrite !length_app; simpl; lia | lia].
      unfold Ident_End. cbn [NamePos Name].
      rewrite !andb_true_r, andb_true_iff, !Nat.leb_le. lia.
    + exists (x ++ B " " ++ lit). split.
      * rewrite <- !app_assoc. reflexivity.
      * unfold BasicLit_End. simpl. rewrite !length_app. simpl. lia.
Qed.

Lemma scan_imports_ok (fuel : nat) (s pre : bytes) (p lo : Pos)
    (l : list ImportSpec) :
  scan_imports fuel s p = Some l ->
  p = length pre + 1 -> lo <= p ->
  specs_ok (pre ++ s) lo l = true.
Proof.
  revert s pre p lo l; induction fuel as [|fuel IH]; intros s pre p lo l;
    cbn [scan_imports].
  - intros H; inversion H; reflexivity.
  - destruct (expect [newline] s) as [s'|] eqn:N.
    + intros H Hp Hlo. apply expect_app in N. subst s.
      rewrite app_assoc. apply (IH _ _ (p + 1)); auto.
      * rewrite length_app. simpl. lia.
      * lia.
    + destruct (expect (B "import ") s) as [s1|] eqn:I.
      * destruct (scan_spec s1 (p + 7)) as [[spec rest]|] eqn:S; [|discriminate].
        destruct (scan_imports fuel rest (BasicLit_End (spec_Path spec)))
          as [l'|] eqn:R; [|discriminate].
        intros H Hp Hlo. inversion H; subst l; clear H.
        apply expect_app in I. subst s.
        assert (Hp7 : p + 7 = length (pre ++ B "import ") + 1)
          by (rewrite length_app; simpl; lia).
        destruct (@scan_spec_ok s1 rest (pre ++ B "import ") (p + 7) lo spec
                    S Hp7 ltac:(lia)) as (Hspec & used & -> & Hend).
        cbn [specs_ok].
        rewrite (app_assoc pre (B "import ") (used ++ rest)), Hspec.
        rewrite andb_true_l, (app_assoc (pre ++ B "import ") used rest).
        apply (IH _ _ (BasicLit_End (spec_Path spec))); auto.
      * intros H; inversion H; reflexivity.
Qed.

(** Every header the sample parser accepts is well positioned. *)
Lemma ParseFile_header_ok (file data : bytes) (f : File) :
  ParseFile file data = Some f ->
  header_ok (T := toolchain) data f = true.
Proof.
  unfold ParseFile.
  destruct (expect (B "package ") data) as [s|] eqn:E; [|discriminate].
  destruct (scan_ident s) as [[x rest]|] eqn:S; [|discriminate].
  destruct (scan_imports (length rest) rest (9 + length x)) as [l|] eqn:I;
    [|discriminate].
  intros H; inversion H; subst f; clear H.
  apply expect_app in E. subst data.
  apply scan_ident_app in S. destruct S as (-> & Hid & Hx).
  unfold header_ok. cbn [file_Name Imports NamePos Name].
  rewrite !andb_true_iff. split; [split|].
  - apply text_at_middle; [reflexivity | exact Hx].
  - exact Hid.
  - rewrite (app_assoc (B "package ") x rest).
    apply (@scan_imports_ok _ _ _ (9 + length x) _ _ I).
    + rewrite length_app. simpl. lia.
    + unfold Ident_End. simpl. lia.
Qed.

End PlainFacts.

(** ** The import rules *)

Lemma subpackage_not_self (o rest : bytes) :
  bytes_eqb (o ++ B "/" ++ rest) o = false.
Proof.
  apply bytes_eqb_neq. intros H. apply (f_equal (@length ascii)) in H.
  rewrite !length_app in H. simpl in H. lia.
Qed.

(** C1: an import spec whose path is the old identity [O] gets the alias
    [base(O)] and a space inserted at the start of its path literal when
    [base(O)] differs from [base(N)] and the spec has no alias, and none
    otherwise; in both cases the literal is replaced with the quoted [N].
    In the output, the bytes written for the file before the literal are
    followed by the alias (if any), the quoted [N] and the bytes written
    for the rest of the file. *)
Theorem self_import_aliased {T : Toolchain} (data file O N : bytes)
    (isRoot : bool) (f : File) (b0 : edit.Buffer) (l1 l2 : list ImportSpec)
    (spec : ImportSpec) :
  ParseFile file data = Some f ->
  header_ok data f = true ->
  Imports f = l1 ++ spec :: l2 ->
  fixPackage (edit.NewBuffer data) f (path.Base O) (path.Base N) isRoot
    = Ok b0 ->
  Unquote (Value (spec_Path spec)) = Some O ->
  let p := at_ (ValuePos (spec_Path spec)) in
  let e := at_ (BasicLit_End (spec_Path spec)) in
  let step := fixImport O N (path.Base O) (path.Base N) in
  let aliased :=
    negb (bytes_eqb (path.Base O) (path.Base N)) && is_nil (spec_Name spec) in
  let alias := if aliased then path.Base O ++ B " " else [] in
  (forall buf,
     step buf spec =
     edit.Replace (if aliased then edit.Insert buf p (path.Base O ++ B " ")
                   else buf) p e (Quote N))
  /\ exists before after,
       edit.walk (firstn p data) 0 (edit.q (fold_left step l1 b0)) = Ok before
       /\ edit.walk data e (edit.q (fold_left step l2 (edit.NewBuffer data)))
          = Ok after
       /\ fixGo data file O N isRoot
          = Ok (before ++ alias ++ Quote N ++ after).
Proof.
  intros Hparse Hok Himp Hpkg Hunq p e step aliased alias.
  assert (Hstep : forall buf,
    step buf spec =
    edit.Replace (if aliased then edit.Insert buf p (path.Base O ++ B " ")
                  else buf) p e (Quote N)).
  { intros buf. unfold step, fixImport. cbv zeta. rewrite Hunq.
    rewrite bytes_eqb_refl, (self_not_subpackage O O (bytes_eqb_refl O)).
    reflexivity. }
  split; [exact Hstep|].
  assert (Hse : import_edits O N spec =
    (if aliased
     then [{| edit.start := p; edit.end_ := p;
              edit.new := path.Base O ++ B " " |}]
     else [])
    ++ [{| edit.start := p; edit.end_ := e; edit.new := Quote N |}]).
  { unfold import_edits. fold step. rewrite Hstep.
    destruct aliased; reflexivity. }
  destruct aliased eqn:Ea; simpl in Hse.
  - destruct (@fixGo_around T data file O N isRoot f b0 l1 l2 spec
                Hparse Hok Himp Hpkg _ _ Hse eq_refl eq_refl)
      as (before & after & Hb & Ha & Hgo).
    exists before, after. split; [exact Hb|]. split; [exact Ha|].
    apply Hgo. apply EditFacts.walk_replace, EditFacts.walk_replace.
    exact Ha.
  - destruct (@fixGo_around T data file O N isRoot f b0 l1 l2 spec
                Hparse Hok Himp Hpkg _ _ Hse eq_refl eq_refl)
      as (before & after & Hb & Ha & Hgo).
    exists before, after. split; [exact Hb|]. split; [exact Ha|].
    change (before ++ alias ++ Quote N ++ after)
      with (before ++ Quote N ++ after).
    apply Hgo. apply EditFacts.walk_replace. exact Ha.
Qed.

(** C2: an import spec whose path is [O/rest] has its path literal
    replaced with the quoted [N/rest], with [rest] as it was wherever [O]
    occurs in it; this is the only edit queued for the spec, so that the
    output is the bytes written for the file before the literal, the
    quoted new path and the bytes written for the rest of the file. *)
Theorem subpackage_import_rewritten {T : Toolchain} (data file O N rest : bytes)
    (isRoot : bool) (f : File) (b0 : edit.Buffer) (l1 l2 : list ImportSpec)
    (spec : ImportSpec) :
  ParseFile file data = Some f ->
  header_ok data f = true ->
  Imports f = l1 ++ spec :: l2 ->
  fixPackage (edit.NewBuffer data) f (path.Base O) (path.Base N) isRoot
    = Ok b0 ->
  Unquote (Value (spec_Path spec)) = Some (O ++ B "/" ++ rest) ->
  let p := at_ (ValuePos (spec_Path spec)) in
  let e := at_ (BasicLit_End (spec_Path spec)) in
  let step := fixImport O N (path.Base O) (path.Base N) in
  (forall buf,
     step buf spec = edit.Replace buf p e (Quote (N ++ B "/" ++ rest)))
  /\ exists before after,
       edit.walk (firstn p data) 0 (edit.q (fold_left step l1 b0)) = Ok before
       /\ edit.walk data e (edit.q (fold_left step l2 (edit.NewBuffer data)))
          = Ok after
       /\ fixGo data file O N isRoot
          = Ok (before ++ Quote (N ++ B "/" ++ rest) ++ after).
Proof.
  intros Hparse Hok Himp Hpkg Hunq p e step.
  assert (Hstep : forall buf,
    step buf spec = edit.Replace buf p e (Quote (N ++ B "/" ++ rest))).
  { intros buf. unfold step, fixImport. cbv zeta. rewrite Hunq.
    rewrite subpackage_not_self.
    rewrite (app_assoc O), HasPrefix_app, <- app_assoc.
    rewrite Replace1_prefix. reflexivity. }
  split; [exact Hstep|].
  assert (Hse : import_edits O N spec =
    [{| edit.start := p; edit.end_ := e;
        edit.new := Quote (N ++ B "/" ++ rest) |}]).
  { unfold import_edits. fold step. rewrite Hstep. reflexivity. }
  destruct (@fixGo_around T data file O N isRoot f b0 l1 l2 spec
              Hparse Hok Himp Hpkg _ _ Hse eq_refl eq_refl)
    as (before & after & Hb & Ha & Hgo).
  exists before, after. split; [exact Hb|]. split; [exact Ha|].
  apply Hgo. apply EditFacts.walk_replace. exact Ha.
Qed.

(** C9: an import spec whose path literal cannot be unquoted leaves the
    buffer as it is, and the rewrite of the file is the rewrite of the
    file without that spec: no edit, no error, and the other specs are
    processed as usual. *)
Theorem unquotable_import_skipped {T : Toolchain} (data O N : bytes)
    (isRoot : bool) (name : Ident) (l1 l2 : list ImportSpec)
    (spec : ImportSpec) :
  Unquote (Value (spec_Path spec)) = None ->
  (forall buf, fixImport O N (path.Base O) (path.Base N) buf spec = buf)
  /\ fixGo_buffer data {| file_Name := name; Imports := l1 ++ spec :: l2 |}
       O N isRoot
     = fixGo_buffer data {| file_Name := name; Imports := l1 ++ l2 |}
         O N isRoot
  /\ fixGo_parsed data {| file_Name := name; Imports := l1 ++ spec :: l2 |}
       O N isRoot
     = fixGo_parsed data {| file_Name := name; Imports := l1 ++ l2 |}
         O N isRoot.
Proof.
  intros Hunq.
  assert (Hstep : forall buf,
            fixImport O N (path.Base O) (path.Base N) buf spec = buf).
  { intros buf. unfold fixImport. rewrite Hunq. reflexivity. }
  assert (Hbuf :
    fixGo_buffer data {| file_Name := name; Imports := l1 ++ spec :: l2 |}
      O N isRoot
    = fixGo_buffer data {| file_Name := name; Imports := l1 ++ l2 |}
        O N isRoot).
  { unfold fixGo_buffer. cbv zeta.
    change (fixPackage (edit.NewBuffer data)
              {| file_Name := name; Imports := l1 ++ spec :: l2 |})
      with (fixPackage (edit.NewBuffer data)
              {| file_Name := name; Imports := l1 ++ l2 |}).
    destruct (fixPackage (edit.NewBuffer data)
                {| file_Name := name; Imports := l1 ++ l2 |}
                (path.Base O) (path.Base N) isRoot); [|reflexivity].
    unfold bind. cbn [Imports]. rewrite !fold_left_app. cbn [fold_left].
    rewrite Hstep. reflexivity. }
  split; [exact Hstep|]. split; [exact Hbuf|].
  unfold fixGo_parsed. rewrite Hbuf. reflexivity.
Qed.

(** ** Files that come out as they went in *)

Lemma specs_ok_In {T : Toolchain} (data : bytes) (l : list ImportSpec)
    (lo : Pos) (s : ImportSpec) :
  specs_ok data lo l = true -> In s l ->
  text_at data (ValuePos (spec_Path s)) (Value (spec_Path s)) = true.
Proof.
  revert lo; induction l as [|x l IH]; intros lo Hok Hin; [destruct Hin|].
  simpl in Hok. apply andb_true_iff in Hok. destruct Hok as [Hx Hl].
  destruct Hin as [->|Hin].
  - apply (spec_ok_spec _ _ _ Hx).
  - apply (IH _ Hl Hin).
Qed.

(** C6: a file none of whose import paths is [O] or starts with [O/],
    and whose package name, when the file is in the root directory, is
    neither [base(O)] nor [base(O)_test], comes out byte for byte as it
    went in. *)
Theorem unreferenced_file_unchanged {T : Toolchain} (data file O N : bytes)
    (isRoot : bool) (f : File) :
  ParseFile file data = Some f ->
  (forall spec pth,
     In spec (Imports f) -> Unquote (Value (spec_Path spec)) = Some pth ->
     pth <> O /\ strings.HasPrefix pth (O ++ B "/") = false) ->
  (isRoot = true ->
   Name (file_Name f) <> path.Base O
   /\ Name (file_Name f) <> path.Base O ++ B "_test") ->
  fixGo data file O N isRoot = Ok data.
Proof.
  intros Hparse Himp Hname.
  unfold fixGo. rewrite Hparse. unfold fixGo_parsed, fixGo_buffer. cbv zeta.
  assert (Hpkg : fixPackage (edit.NewBuffer data) f (path.Base O)
                   (path.Base N) isRoot = Ok (edit.NewBuffer data)).
  { unfold fixPackage. destruct isRoot; [|reflexivity].
    destruct (Hname eq_refl) as [H1 H2].
    apply bytes_eqb_neq in H1, H2. cbv zeta. rewrite H1, H2. reflexivity. }
  rewrite Hpkg. unfold bind.
  assert (Hfold : forall l buf,
    (forall spec, In spec l -> In spec (Imports f)) ->
    fold_left (fixImport O N (path.Base O) (path.Base N)) l buf = buf).
  { induction l as [|s l IH]; intros buf Hsub; [reflexivity|].
    simpl. rewrite IH by (intros; apply Hsub; right; assumption).
    unfold fixImport.
    destruct (Unquote (Value (spec_Path s))) as [pth|] eqn:E; [|reflexivity].
    destruct (Himp s pth (Hsub s (or_introl eq_refl)) E) as [H1 H2].
    apply bytes_eqb_neq in H1. cbv zeta. rewrite H1, H2. reflexivity. }
  rewrite Hfold by auto. reflexivity.
Qed.

(** C3, amended: with the same identity [X] for old and new, a file comes
    out byte for byte as it went in, provided every import literal whose
    path is [X] or starts with [X/] is written the way [strconv.Quote]
    writes that path. *)
Theorem same_identity_unchanged {T : Toolchain} (data file X : bytes)
    (isRoot : bool) (f : File) :
  ParseFile file data = Some f ->
  header_ok data f = true ->
  (forall spec pth,
     In spec (Imports f) -> Unquote (Value (spec_Path spec)) = Some pth ->
     pth = X \/ strings.HasPrefix pth (X ++ B "/") = true ->
     Value (spec_Path spec) = Quote pth) ->
  fixGo data file X X isRoot = Ok data.
Proof.
  intros Hparse Hok Hcanon.
  pose proof (plan_chain data X X f isRoot Hok) as Hchain.
  unfold header_ok in Hok. rewrite !andb_true_iff in Hok.
  destruct Hok as [[Hname Hid] Hspecs].
  destruct (text_at_spec _ _ _ Hname) as (_ & _ & _ & Hslice).
  fold (Ident_End (file_Name f)) in Hslice.
  assert (Hdname : forall name,
    bytes_eqb name (path.Base X) || bytes_eqb name (path.Base X ++ B "_test")
      = true ->
    path.Base X ++ strings.TrimPrefix name (path.Base X) = name).
  { intros name H. apply orb_true_iff in H.
    destruct H as [H|H]; apply bytes_eqb_eq in H; subst name.
    - rewrite TrimPrefix_self. apply app_nil_r.
    - rewrite TrimPrefix_app. reflexivity. }
  assert (Hpkg : exists b0,
    fixPackage (edit.NewBuffer data) f (path.Base X) (path.Base X) isRoot
      = Ok b0).
  { unfold fixPackage. destruct isRoot; [|eauto]. cbv zeta.
    destruct (bytes_eqb (Name (file_Name f)) (path.Base X)
              || bytes_eqb (Name (file_Name f)) (path.Base X ++ B "_test"))
      eqn:E; [|eauto].
    rewrite (Hdname _ E), Hid. simpl. eauto. }
  destruct Hpkg as [b0 Hpkg].
  assert (Hsame : Forall
    (fun e => edit.new e = slice data (edit.start e) (edit.end_ e))
    (package_edits X X f isRoot ++ flat_map (import_edits X X) (Imports f))).
  { apply Forall_app. split.
    - unfold package_edits, fixPackage. destruct isRoot; [|constructor].
      cbv zeta.
      destruct (bytes_eqb (Name (file_Name f)) (path.Base X)
                || bytes_eqb (Name (file_Name f)) (path.Base X ++ B "_test"))
        eqn:E; [|constructor].
      rewrite (Hdname _ E), Hid. simpl. constructor; [|constructor].
      simpl. symmetry. exact Hslice.
    - apply Forall_flat_map. apply Forall_forall. intros s Hin.
      pose proof (specs_ok_In _ _ _ _ Hspecs Hin) as Ht.
      destruct (text_at_spec _ _ _ Ht) as (_ & _ & _ & Hs).
      fold (BasicLit_End (spec_Path s)) in Hs.
      unfold import_edits, fixImport. cbv zeta.
      destruct (Unquote (Value (spec_Path s))) as [pth|] eqn:E;
        [|constructor].
      rewrite bytes_eqb_refl. simpl negb. simpl andb.
      destruct (bytes_eqb pth X) eqn:E1.
      + rewrite (self_not_subpackage _ _ E1).
        apply bytes_eqb_eq in E1. subst pth.
        constructor; [|constructor]. simpl.
        rewrite <- (Hcanon s X Hin E (or_introl eq_refl)).
        symmetry. exact Hs.
      + destruct (strings.HasPrefix pth (X ++ B "/")) eqn:E2; [|constructor].
        constructor; [|constructor]. simpl.
        unfold strings.Replace1. rewrite bytes_eqb_refl.
        rewrite <- (Hcanon s pth Hin E (or_intror E2)).
        symmetry. exact Hs. }
  unfold fixGo. rewrite Hparse. unfold fixGo_parsed.
  destruct (fixGo_buffer data f X X isRoot) as [b|] eqn:Eb.
  - apply fixGo_buffer_queue in Eb. subst b. unfold bind, edit.Bytes.
    cbn [edit.old edit.q].
    rewrite (EditFacts.chain_sorted _ _ Hchain).
    rewrite (EditFacts.walk_identity data _ Hchain Hsame). reflexivity.
  - unfold fixGo_buffer in Eb. cbv zeta in Eb. rewrite Hpkg in Eb.
    discriminate.
Qed.

(** ** The package clause *)

Section PackageClause.

Context {T : Toolchain}.
Variables (data file O N : bytes) (isRoot : bool) (f : File).

Let name := Name (file_Name f).
Let np := at_ (NamePos (file_Name f)).
Let ne := at_ (Ident_End (file_Name f)).
Let imports :=
  edit.q (fold_left (fixImport O N (path.Base O) (path.Base N)) (Imports f)
            (edit.NewBuffer data)).

Hypothesis Hparse : ParseFile file data = Some f.
Hypothesis Hok : header_ok data f = true.

Lemma imports_after_name :
  imports = flat_map (import_edits O N) (Imports f)
  /\ chain ne imports.
Proof.
  unfold imports. rewrite fold_fixImport_queue. split; [reflexivity|].
  unfold header_ok in Hok. rewrite !andb_true_iff in Hok.
  destruct Hok as [_ Hs]. apply (imports_chain _ _ _ _ _ Hs). unfold ne. lia.
Qed.

Lemma name_in_file :
  np <= ne /\ firstn ne data = firstn np data ++ name.
Proof.
  unfold header_ok in Hok. rewrite !andb_true_iff in Hok.
  destruct Hok as [[Hn _] _].
  destruct (text_at_spec _ _ _ Hn) as (H1 & H2 & H3 & H4).
  fold (Ident_End (file_Name f)) in H3, H4. fold np ne name in H3, H4.
  split; [lia|].
  rewrite <- H4.
  replace (firstn ne data) with (slice data 0 ne)
    by (unfold slice; rewrite Nat.sub_0_r; reflexivity).
  replace (firstn np data) with (slice data 0 np)
    by (unfold slice; rewrite Nat.sub_0_r; reflexivity).
  apply slice_split; lia.
Qed.

(** The output when the package clause is renamed to [dname]. *)
Lemma fixGo_renamed (dname : bytes) :
  fixPackage (edit.NewBuffer data) f (path.Base O) (path.Base N) isRoot
    = Ok (edit.Replace (edit.NewBuffer data) np ne dname) ->
  exists after,
    edit.walk data ne imports = Ok after
    /\ fixGo data file O N isRoot = Ok (firstn np data ++ dname ++ after).
Proof.
  intros Hpkg. destruct imports_after_name as [Ei Hc].
  destruct name_in_file as [Hle _].
  destruct (EditFacts.walk_chain_ok data _ _ Hc) as [after Ha].
  exists after. split; [exact Ha|].
  unfold fixGo. rewrite Hparse. unfold fixGo_parsed, fixGo_buffer. cbv zeta.
  rewrite Hpkg. unfold bind. rewrite fold_fixImport_queue. unfold edit.Bytes.
  cbn [edit.old edit.q edit.Replace edit.NewBuffer app]. rewrite <- Ei.
  assert (Hall : chain 0
    ({| edit.start := np; edit.end_ := ne; edit.new := dname |} :: imports)).
  { simpl. intuition lia. }
  rewrite (EditFacts.chain_sorted _ _ Hall). simpl. rewrite Ha. simpl.
  unfold slice. rewrite Nat.sub_0_r. reflexivity.
Qed.

(** The output when the package clause is left alone. *)
Lemma fixGo_not_renamed :
  fixPackage (edit.NewBuffer data) f (path.Base O) (path.Base N) isRoot
    = Ok (edit.NewBuffer data) ->
  exists after,
    edit.walk data ne imports = Ok after
    /\ fixGo data file O N isRoot = Ok (firstn np data ++ name ++ after).
Proof.
  intros Hpkg. destruct imports_after_name as [Ei Hc].
  destruct name_in_file as [Hle Hname].
  destruct (EditFacts.walk_chain_ok data _ _ Hc) as [after Ha].
  exists after. split; [exact Ha|].
  unfold fixGo. rewrite Hparse. unfold fixGo_parsed, fixGo_buffer. cbv zeta.
  rewrite Hpkg. unfold bind. rewrite fold_fixImport_queue. unfold edit.Bytes.
  cbn [edit.old edit.q edit.NewBuffer app]. rewrite <- Ei.
  assert (Hall : chain 0 imports)
    by (eapply EditFacts.chain_weaken; [|exact Hc]; lia).
  rewrite (EditFacts.chain_sorted _ _ Hall).
  rewrite (@EditFacts.walk_shift data 0 ne imports).
  - rewrite Ha. simpl. unfold slice. rewrite Nat.sub_0_r. simpl skipn.
    rewrite Hname, <- app_assoc. reflexivity.
  - lia.
  - pose proof (EditFacts.chain_within _ _ Hc) as Hw.
    eapply Forall_impl; [|exact Hw]. simpl. intros a. lia.
Qed.

(** C5, amended: in a file of the root directory whose package name is
    [base(O)] or [base(O)_test], the name is replaced by [base(N)] or
    [base(N)_test] when that is a Go identifier, and the rewrite aborts
    when it is not; the package clause of any other file is left as it
    is.  What follows the name is the rest of the file as the import
    rules rewrite it. *)
Theorem package_clause_renamed :
  let renamed :=
    isRoot && (bytes_eqb name (path.Base O)
               || bytes_eqb name (path.Base O ++ B "_test")) in
  let dname :=
    if bytes_eqb name (path.Base O) then path.Base N
    else path.Base N ++ B "_test" in
  (renamed = true -> IsIdentifier dname = false ->
   fixGo data file O N isRoot = Fatal (PlanError name dname))
  /\ (renamed = true -> IsIdentifier dname = true ->
      exists after,
        edit.walk data ne imports = Ok after
        /\ fixGo data file O N isRoot = Ok (firstn np data ++ dname ++ after))
  /\ (renamed = false ->
      exists after,
        edit.walk data ne imports = Ok after
        /\ fixGo data file O N isRoot = Ok (firstn np data ++ name ++ after)).
Proof.
  intros renamed dname.
  assert (Hd : renamed = true ->
    path.Base N ++ strings.TrimPrefix name (path.Base O) = dname).
  { unfold renamed, dname. intros H. apply andb_true_iff in H.
    destruct H as [_ H].
    destruct (bytes_eqb name (path.Base O)) eqn:E.
    - apply bytes_eqb_eq in E. rewrite E, TrimPrefix_self. apply app_nil_r.
    - simpl in H. apply bytes_eqb_eq in H. rewrite H, TrimPrefix_app.
      reflexivity. }
  assert (Hpkg : renamed = true ->
    fixPackage (edit.NewBuffer data) f (path.Base O) (path.Base N) isRoot
    = if negb (IsIdentifier dname) then Fatal (PlanError name dname)
      else Ok (edit.Replace (edit.NewBuffer data) np ne dname)).
  { intros H. specialize (Hd H). unfold renamed in H.
    apply andb_true_iff in H. destruct H as [-> H].
    unfold fixPackage. cbv zeta. fold name. rewrite H, Hd. reflexivity. }
  split; [|split].
  - intros Hr Hi. specialize (Hpkg Hr). rewrite Hi in Hpkg. simpl in Hpkg.
    unfold fixGo. rewrite Hparse. unfold fixGo_parsed, fixGo_buffer.
    cbv zeta. rewrite Hpkg. reflexivity.
  - intros Hr Hi. specialize (Hpkg Hr). rewrite Hi in Hpkg. simpl in Hpkg.
    apply fixGo_renamed. exact Hpkg.
  - intros Hr. apply fixGo_not_renamed.
    unfold fixPackage. cbv zeta. fold name. unfold renamed in Hr.
    destruct isRoot; [|reflexivity]. rewrite andb_true_l in Hr.
    rewrite Hr. reflexivity.
Qed.

End PackageClause.

(** ** The edit list *)

(** C7: the edits [fixGo] queues for a parsed file are pairwise
    non-overlapping, and an insert that starts where a replace starts is
    queued before it. *)
Theorem edits_do_not_overlap {T : Toolchain} (data file O N : bytes)
    (isRoot : bool) (f : File) (buf : edit.Buffer) :
  ParseFile file data = Some f ->
  header_ok data f = true ->
  fixGo_buffer data f O N isRoot = Ok buf ->
  non_overlapping (edit.q buf) /\ insert_before_replace (edit.q buf).
Proof.
  intros _ Hok Hbuf. apply fixGo_buffer_queue in Hbuf. subst buf.
  cbn [edit.q]. pose proof (plan_chain data O N f isRoot Hok) as Hc.
  set (l := package_edits O N f isRoot
            ++ flat_map (import_edits O N) (Imports f)) in *.
  split.
  - intros i j a b Hi Hj Hlt.
    destruct (Nat.lt_trichotomy i j) as [Hij|[Hij|Hij]].
    + apply (@EditFacts.chain_nth_order 0 l _ _ _ _ Hc Hi Hj Hij).
    + subst j. rewrite Hi in Hj. inversion Hj; subst. lia.
    + pose proof (@EditFacts.chain_nth_order 0 l _ _ _ _ Hc Hj Hi Hij).
      pose proof (@EditFacts.chain_nth_range 0 l _ _ Hc Hj). lia.
  - intros i j a b Hi Hj Hs Ha Hb. unfold edit.is_insert in Ha, Hb.
    apply Nat.eqb_eq in Ha. apply Nat.eqb_neq in Hb.
    destruct (Nat.lt_trichotomy i j) as [Hij|[Hij|Hij]]; [exact Hij| |].
    + subst j. rewrite Hi in Hj. inversion Hj; subst. lia.
    + pose proof (@EditFacts.chain_nth_order 0 l _ _ _ _ Hc Hj Hi Hij).
      pose proof (@EditFacts.chain_nth_range 0 l _ _ Hc Hj). lia.
Qed.

(** ** Validation and the destination directory *)

Section Runs.

Context {T : Toolchain} {M : Modfile} {P : Platform} {C : Codecs}.

Lemma exec_runs (w : forall A, io A -> A) (p : prog) :
  runs p (fst (exec w p)) (snd (exec w p)).
Proof.
  induction p as [| e | A c k IH]; simpl; auto.
  specialize (IH (w A c)). destruct (exec w (k (w A c))) as [tr res].
  simpl in *. eauto.
Qed.

Lemma invalid_identity_exits (args : list bytes) :
  invalid_identity args = true ->
  exists what, initProject_run args = Exit (ValidationError what).
Proof.
  destruct args as [|arg0 more]; [discriminate|].
  unfold invalid_identity, initProject_run. cbv zeta.
  destruct (CheckPath (source_of arg0)); simpl; [|eauto].
  destruct more as [|arg1 more]; [discriminate|].
  intros ->. eauto.
Qed.

(** C8, amended: when the old or the new identity is not a valid module
    path, the run reads no directory, fetches no module and reads or
    writes no file; it ends with the validation failure, except that
    with more than three arguments it returns without a word when
    printing the usage fails. *)
Theorem invalid_identity_no_file_io (args : list bytes) (tr : list call)
    (res : result) :
  runs (initProject args) tr res ->
  invalid_identity args = true ->
  Forall (fun c => touches_files c = false) tr
  /\ ((exists what, res = Exited (ValidationError what))
      \/ (3 < length args /\ tr = [Call Usage false] /\ res = Returned)).
Proof.
  intros Hrun Hinv.
  destruct (invalid_identity_exits _ Hinv) as [what Hexit].
  unfold initProject in Hrun.
  destruct ((length args <? 1) || (3 <? length args)) eqn:G.
  - simpl in Hrun. destruct Hrun as (ok & tr' & -> & Hrun).
    destruct ok.
    + rewrite Hexit in Hrun. simpl in Hrun. destruct Hrun as [-> ->].
      split; [repeat constructor | left; eauto].
    + simpl in Hrun. destruct Hrun as [-> ->].
      split; [repeat constructor | right].
      apply orb_true_iff in G. destruct G as [G|G].
      * destruct args; [discriminate|]. simpl in G. discriminate.
      * apply Nat.ltb_lt in G. auto.
  - rewrite Hexit in Hrun. simpl in Hrun. destruct Hrun as [-> ->].
    split; [constructor | left; eauto].
Qed.

End Runs.

(** ** Runs of [initProject] *)

Section DestinationCheck.

Context {T : Toolchain} {M : Modfile} {P : Platform} {C : Codecs}.

Lemma destination_is_dir (arg0 : bytes) (more : list bytes) :
  CheckPath (source_of arg0) = true ->
  match more with
  | [_; arg2] => arg2
  | _ => B "." ++ [Separator]
         ++ path.Base match more with
                      | arg1 :: _ => arg1
                      | [] => source_of arg0
                      end
  end = destination (arg0 :: more).
Proof.
  intros _. destruct more as [|arg1 [|arg2 [|arg3 more]]]; reflexivity.
Qed.

(** What the check of the destination directory does in a run with valid
    identities: when [os.ReadDir] answers without an error and with at
    least one entry, the run ends there; otherwise the module is fetched
    next, and when [os.ReadDir] answered with an error the directory is
    made right after a fetch that succeeded, and not before. *)
Lemma destination_check (args : list bytes) (tr : list call) (res : result) :
  runs (initProject_run args) tr res ->
  args <> [] ->
  invalid_identity args = false ->
  exists de err_nil tr1,
    tr = Call (ReadDir (destination args)) (de, err_nil) :: tr1
    /\ if err_nil && (0 <? length de)
       then tr1 = [] /\ res = Exited DestinationError
       else exists ver ran stdout tr2,
         tr1 = Call (GoModDownload ver) (ran, stdout) :: tr2
         /\ match ran, json_Dir stdout with
            | true, Some infoDir =>
                if err_nil
                then exists entries tr3,
                       tr2 = Call (WalkDir infoDir) entries :: tr3
                else exists ok tr3,
                       tr2 = Call (MkdirAll (destination args)) ok :: tr3
            | _, _ => tr2 = [] /\ res = Exited FetchError
            end.
Proof.
  intros Hrun Hne Hvalid.
  destruct args as [|arg0 more]; [congruence|].
  unfold invalid_identity in Hvalid. apply orb_false_iff in Hvalid.
  destruct Hvalid as [Hsrc Hdst]. apply negb_false_iff in Hsrc.
  unfold initProject_run in Hrun. cbv zeta in Hrun.
  rewrite Hsrc, Hdst in Hrun. simpl negb in Hrun. cbv iota in Hrun.
  rewrite (destination_is_dir _ _ Hsrc) in Hrun.
  set (dir := destination (arg0 :: more)) in *.
  simpl in Hrun. destruct Hrun as ([de err_nil] & tr1 & -> & Hrun).
  exists de, err_nil, tr1. split; [reflexivity|].
  destruct (err_nil && (0 <? length de)) eqn:G.
  - simpl in Hrun. exact Hrun.
  - simpl in Hrun. destruct Hrun as ([ran stdout] & tr2 & -> & Hrun).
    eexists _, ran, stdout, tr2. split; [reflexivity|].
    destruct ran; simpl in Hrun; [|exact Hrun].
    destruct (json_Dir stdout) as [infoDir|]; [|exact Hrun].
    destruct err_nil; simpl in Hrun.
    + destruct Hrun as (entries & tr3 & -> & _). eauto.
    + destruct Hrun as (ok & tr3 & -> & _). eauto.
Qed.

End DestinationCheck.

(** ** The properties on sample inputs *)

Section Witnesses.

Import Examples Sample.

Existing Instance Plain.toolchain.
Existing Instance modfile.
Existing Instance platform.
Existing Instance codecs.

Lemma Ok_inj (A : Type) (x y : A) : Ok x = Ok y -> x = y.
Proof. intros H; inversion H; reflexivity. Qed.

(** The self-import of the specification: [import "a/b"] becomes
    [import b "a/c"]. *)
Lemma self_import_aliased_witness :
  fixGo self_import [] (B "a/b") (B "a/c") true = Ok self_import_rewritten.
Proof.
  destruct (@self_import_aliased Plain.toolchain self_import []
              (B "a/b") (B "a/c") true self_import_ast
              (edit.NewBuffer self_import) [] [] (spec_at 18 "a/b")
              eq_refl eq_refl eq_refl eq_refl eq_refl)
    as (_ & before & after & Hb & Ha & Hgo).
  rewrite Hgo. apply Ok_inj in Hb, Ha. subst before after. reflexivity.
Defined.

Lemma subpackage_import_rewritten_witness :
  fixGo subpackage_import [] (B "a/b") (B "a/c") true
  = Ok subpackage_import_file_rewritten.
Proof.
  destruct (@subpackage_import_rewritten Plain.toolchain subpackage_import []
              (B "a/b") (B "a/c") (B "a/b") true subpackage_import_ast
              (edit.NewBuffer subpackage_import) [] [spec_at 35 "a/bb"]
              (spec_at 18 "a/b/a/b")
              eq_refl eq_refl eq_refl eq_refl eq_refl)
    as (_ & before & after & Hb & Ha & Hgo).
  rewrite Hgo. apply Ok_inj in Hb, Ha. subst before after. reflexivity.
Defined.

Lemma unquotable_import_skipped_witness :
  fixGo_parsed self_import
    {| file_Name := {| NamePos := 9; Name := B "x" |};
       Imports := [spec_at 18 "a/b"] ++ broken_spec :: [] |}
    (B "a/b") (B "a/c") true
  = Ok self_import_rewritten.
Proof.
  destruct (@unquotable_import_skipped Plain.toolchain self_import
              (B "a/b") (B "a/c") true {| NamePos := 9; Name := B "x" |}
              [spec_at 18 "a/b"] [] broken_spec eq_refl)
    as (_ & _ & H).
  rewrite H. reflexivity.
Defined.

Lemma unreferenced_file_unchanged_witness :
  fixGo package_b [] (B "a/zz") (B "a/c") true = Ok package_b.
Proof.
  apply (@unreferenced_file_unchanged Plain.toolchain package_b []
           (B "a/zz") (B "a/c") true package_b_ast eq_refl).
  - intros spec pth [<-|[]] H. apply (f_equal (fun o =>
      match o with Some x => x | None => [] end)) in H.
    simpl in H. subst pth. split; [discriminate | reflexivity].
  - intros _. split; discriminate.
Defined.

Lemma same_identity_unchanged_witness :
  fixGo self_import [] (B "a/b") (B "a/b") true = Ok self_import.
Proof.
  apply (@same_identity_unchanged Plain.toolchain self_import []
           (B "a/b") true self_import_ast eq_refl eq_refl).
  intros spec pth [<-|[]] H _. apply (f_equal (fun o =>
    match o with Some x => x | None => [] end)) in H.
  simpl in H. subst pth. reflexivity.
Defined.

(** C3 as stated fails: an import path written as a raw string literal
    comes out as an interpreted one, although old and new identity are
    the same valid module path. *)
Lemma raw_literal_requoted :
  ParseFile [] raw_import <> None
  /\ CheckPath (B "example.com/m") = true
  /\ fixGo raw_import [] (B "example.com/m") (B "example.com/m") false
     = Ok raw_import_rewritten
  /\ raw_import_rewritten <> raw_import.
Proof. repeat split; (reflexivity || discriminate). Qed.

(** The package clause of the specification: [package b_test] becomes
    [package c_test]. *)
Lemma package_clause_renamed_witness :
  fixGo package_b_test [] (B "a/b") (B "a/c") true
  = Ok (B "package c_test" ++ nl ++ B "import b " ++ Q "a/c" ++ nl).
Proof.
  destruct (@package_clause_renamed Plain.toolchain package_b_test []
              (B "a/b") (B "a/c") true package_b_test_ast eq_refl eq_refl)
    as (_ & H & _).
  destruct (H eq_refl eq_refl) as (after & Ha & Hgo).
  rewrite Hgo. apply Ok_inj in Ha. subst after. reflexivity.
Defined.

(** C5 as stated fails: for the valid module paths [example.com/b] and
    [example.com/my-app], the root file of package [b] is not renamed to
    [my-app]; the rewrite aborts. *)
Lemma invalid_package_name_aborts :
  CheckPath (B "example.com/b") = true
  /\ CheckPath (B "example.com/my-app") = true
  /\ ParseFile [] package_b = Some package_b_ast
  /\ Name (file_Name package_b_ast) = path.Base (B "example.com/b")
  /\ path.Base (B "example.com/my-app") = B "my-app"
  /\ fixGo package_b [] (B "example.com/b") (B "example.com/my-app") true
     = Fatal (PlanError (B "b") (B "my-app")).
Proof. repeat split; reflexivity. Qed.

Lemma edits_do_not_overlap_witness :
  non_overlapping self_import_edits
  /\ insert_before_replace self_import_edits.
Proof.
  apply (@edits_do_not_overlap Plain.toolchain self_import []
           (B "a/b") (B "a/c") true self_import_ast
           {| edit.old := self_import; edit.q := self_import_edits |}
           eq_refl eq_refl eq_refl).
Defined.

(** C10 on the code: the destination [./m] exists and holds an entry,
    and reading it fails with the entry read so far; the run does not
    end at the check: it fetches the module, and writes the manifest into
    the directory. *)
Theorem nonempty_destination_not_rejected :
  let args := [B "example.com/t"; B "example.com/m"] in
  ReadDir_answers (Present [B "x"; B "y"]) ([B "x"], false)
  /\ invalid_identity args = false
  /\ destination args = B "./m"
  /\ exec world_unreadable_destination (initProject args)
     = (run_into_nonempty_destination, Exited IOError)
  /\ runs (initProject args) run_into_nonempty_destination (Exited IOError)
  /\ existsb is_fetch run_into_nonempty_destination = true
  /\ existsb writes run_into_nonempty_destination = true.
Proof.
  cbv zeta.
  assert (E : exec world_unreadable_destination
                (initProject [B "example.com/t"; B "example.com/m"])
              = (run_into_nonempty_destination, Exited IOError))
    by reflexivity.
  split; [right; exists 1; reflexivity|].
  split; [reflexivity|]. split; [reflexivity|]. split; [exact E|].
  split; [|split; reflexivity].
  pose proof (exec_runs world_unreadable_destination
                (initProject [B "example.com/t"; B "example.com/m"])) as H.
  rewrite E in H. exact H.
Qed.

(** What [initProject] hands to [fixGo] as the old identity is the path
    of the file in the module cache, not the old module path: on its own
    [fixGo] rewrites the package clause and the import of the sample
    file, in the run the file is written as it was read. *)
Lemma go_file_written_as_read :
  fixGo cached_go_file (B "t.go") (B "example.com/t") (B "example.com/m") true
  = Ok (B "package m" ++ nl ++ B "import " ++ Q "example.com/m/sub" ++ nl)
  /\ exec world_go_file (initProject [B "example.com/t"; B "example.com/m"])
     = ([Call (ReadDir (B "./m")) ([], true);
         Call (GoModDownload (B "example.com/t@latest"))
           (true, stdout_of_download);
         Call (WalkDir (B "/cache/t"))
           [{| w_path := B "/cache/t/t.go"; w_isDir := false;
               w_err := false |}];
         Call (ReadFile (B "/cache/t/t.go")) (Some cached_go_file);
         Call (WriteFile (B "./m/t.go") cached_go_file) true;
         Call (ReadFile (B "./m/template.yaml")) None],
        Exited IOError).
Proof. split; reflexivity. Qed.

(** C8 as stated fails: with four arguments, an invalid old identity and
    a usage message that cannot be printed, the run returns and reports
    no validation failure. *)
Lemma usage_failure_returns_silently :
  invalid_identity four_arguments = true
  /\ runs (initProject four_arguments) [Call Usage false] Returned
  /\ ~ (exists what, Returned = Exited (ValidationError what)).
Proof.
  split; [reflexivity|]. split.
  - simpl. exists false, []. repeat split.
  - intros [what H]. discriminate.
Qed.

Lemma invalid_identity_no_file_io_witness :
  Forall (fun c => touches_files c = false) [Call Usage true]
  /\ ((exists what, Exited (ValidationError (B "no module"))
                    = Exited (ValidationError what))
      \/ (3 < length four_arguments
          /\ [Call Usage true] = [Call Usage false]
          /\ Exited (ValidationError (B "no module")) = Returned)).
Proof.
  apply (@invalid_identity_no_file_io Plain.toolchain modfile platform codecs
           four_arguments [Call Usage true]
           (Exited (ValidationError (B "no module")))).
  - simpl. exists true, []. repeat split.
  - reflexivity.
Defined.

End Witnesses.

(** * Further properties *)

(** ** [fixGo] rewrites the header only *)

Section HeaderOnly.

Context {T : Toolchain}.
Variables (data srcMod dstMod : bytes).

Lemma specs_end_app (lo : Pos) (l1 l2 : list ImportSpec) :
  specs_end lo (l1 ++ l2) = specs_end (specs_end lo l1) l2.
Proof. unfold specs_end. apply fold_left_app. Qed.

Lemma last_end_app (lo : nat) (l1 l2 : list edit.Edit) :
  last_end lo (l1 ++ l2) = last_end (last_end lo l1) l2.
Proof. unfold last_end. apply fold_left_app. Qed.

Lemma import_edits_last_end (spec : ImportSpec) (lo : nat) :
  last_end lo (import_edits srcMod dstMod spec) = lo
  \/ last_end lo (import_edits srcMod dstMod spec)
     = at_ (BasicLit_End (spec_Path spec)).
Proof.
  unfold import_edits, fixImport. cbv zeta.
  destruct (Unquote (Value (spec_Path spec))) as [p|]; [|left; reflexivity].
  destruct (bytes_eqb p srcMod);
    destruct (negb (bytes_eqb (path.Base srcMod) (path.Base dstMod))
              && is_nil (spec_Name spec));
    destruct (strings.HasPrefix p (srcMod ++ B "/"));
    (right; reflexivity) || (left; reflexivity).
Qed.

Lemma imports_last_end (l : list ImportSpec) (lo : Pos) (lo' : nat) :
  specs_ok data lo l = true -> lo' <= at_ lo ->
  last_end lo' (flat_map (import_edits srcMod dstMod) l)
  <= at_ (specs_end lo l).
Proof.
  revert lo lo'; induction l as [|s l IH]; intros lo lo' Hok Hlo;
    [exact Hlo|].
  simpl in Hok. apply andb_true_iff in Hok. destruct Hok as [Hs Hl].
  apply spec_ok_spec in Hs. destruct Hs as [Hp Ht].
  apply text_at_spec in Ht. destruct Ht as (H1 & H2 & H3 & _).
  fold (BasicLit_End (spec_Path s)) in H3.
  cbn [flat_map]. rewrite last_end_app.
  change (specs_end lo (s :: l))
    with (specs_end (BasicLit_End (spec_Path s)) l).
  apply (IH _ _ Hl).
  destruct (import_edits_last_end s lo') as [-> | ->];
    unfold at_ in *; lia.
Qed.

Lemma package_edits_last_end (f : File) (isRoot : bool) :
  last_end (at_ (NamePos (file_Name f)))
    (package_edits srcMod dstMod f isRoot)
  = at_ (NamePos (file_Name f))
  \/ last_end (at_ (NamePos (file_Name f)))
       (package_edits srcMod dstMod f isRoot)
     = at_ (Ident_End (file_Name f)).
Proof.
  unfold package_edits, fixPackage. cbv zeta.
  destruct isRoot; [|left; reflexivity].
  destruct (bytes_eqb _ _ || bytes_eqb _ _); [|left; reflexivity].
  destruct (negb (IsIdentifier _)); [left|right]; reflexivity.
Qed.

(** The edits of a well-positioned file form a chain that starts at the
    package name and ends within the header. *)
Lemma plan_within_header (f : File) (isRoot : bool) :
  header_ok data f = true ->
  let q := package_edits srcMod dstMod f isRoot
           ++ flat_map (import_edits srcMod dstMod) (Imports f) in
  chain (at_ (NamePos (file_Name f))) q
  /\ last_end (at_ (NamePos (file_Name f))) q <= at_ (header_end f).
Proof.
  intros Hok q. unfold header_ok in Hok. rewrite !andb_true_iff in Hok.
  destruct Hok as [[Hn _] Hs].
  apply text_at_spec in Hn. destruct Hn as (H1 & H2 & H3 & _).
  fold (Ident_End (file_Name f)) in H3.
  assert (Hi : chain (at_ (Ident_End (file_Name f)))
                 (flat_map (import_edits srcMod dstMod) (Imports f)))
    by (apply (imports_chain _ _ _ _ _ Hs); lia).
  split.
  - unfold q, package_edits, fixPackage. cbv zeta.
    assert (Hweak : chain (at_ (NamePos (file_Name f)))
                      (flat_map (import_edits srcMod dstMod) (Imports f)))
      by (eapply EditFacts.chain_weaken; [|exact Hi]; lia).
    destruct isRoot; [|exact Hweak].
    destruct (bytes_eqb _ _ || bytes_eqb _ _); [|exact Hweak].
    destruct (negb (IsIdentifier _)); [exact Hweak|].
    simpl. intuition lia.
  - unfold q. rewrite last_end_app. unfold header_end.
    apply (imports_last_end _ _ Hs).
    destruct (package_edits_last_end f isRoot) as [-> | ->]; lia.
Qed.

End HeaderOnly.

(** A pass over a chain ends with the original bytes from any offset
    behind the chain on. *)
Lemma walk_keeps_tail (data : bytes) (hi : nat) (l : list edit.Edit)
    (lo : nat) :
  chain lo l -> last_end lo l <= hi ->
  exists mid, edit.walk data lo l = Ok (mid ++ skipn hi data).
Proof.
  revert lo; induction l as [|e l IH]; intros lo Hc Hhi.
  - exists (slice data lo hi). simpl. unfold last_end in Hhi. simpl in Hhi.
    rewrite slice_skipn by exact Hhi. reflexivity.
  - destruct Hc as (H1 & H2 & H3).
    destruct (IH (edit.end_ e) H3 Hhi) as [mid Hmid].
    exists (slice data lo (edit.start e) ++ edit.new e ++ mid).
    simpl. destruct (Nat.ltb_spec (edit.start e) lo); [lia|].
    rewrite Hmid. simpl. rewrite <- !app_assoc. reflexivity.
Qed.

(** X1: on a parsed file [fixGo] gives up on a package name that is no
    identifier, or returns the bytes before the package name as they
    were, then the rewritten header, then everything behind the header as
    it was. *)
Theorem fixGo_rewrites_header_only {T : Toolchain}
    (data file srcMod dstMod : bytes) (isRoot : bool) (f : File) :
  ParseFile file data = Some f ->
  header_ok data f = true ->
  (exists name dname,
     fixGo data file srcMod dstMod isRoot = Fatal (PlanError name dname))
  \/ (exists mid,
        fixGo data file srcMod dstMod isRoot
        = Ok (firstn (at_ (NamePos (file_Name f))) data
              ++ mid ++ skipn (at_ (header_end f)) data)).
Proof.
  intros Hparse Hok. unfold fixGo. rewrite Hparse. unfold fixGo_parsed.
  destruct (fixGo_buffer data f srcMod dstMod isRoot) as [b|e] eqn:Eb.
  - right. apply fixGo_buffer_queue in Eb. subst b.
    pose proof (plan_chain data srcMod dstMod f isRoot Hok) as Hc0.
    destruct (plan_within_header data srcMod dstMod f isRoot Hok)
      as [Hc Hend].
    unfold bind, edit.Bytes. cbn [edit.old edit.q].
    rewrite (EditFacts.chain_sorted _ _ Hc0).
    set (q := package_edits srcMod dstMod f isRoot
              ++ flat_map (import_edits srcMod dstMod) (Imports f)) in *.
    destruct (@walk_keeps_tail data _ _ _ Hc Hend) as [mid Hmid].
    exists mid.
    rewrite (@EditFacts.walk_shift data 0 (at_ (NamePos (file_Name f))) q).
    + rewrite Hmid. simpl. unfold slice. rewrite Nat.sub_0_r. reflexivity.
    + lia.
    + pose proof (EditFacts.chain_within _ _ Hc) as Hw.
      eapply Forall_impl; [|exact Hw]. simpl. intros a. lia.
  - left. unfold fixGo_buffer, fixPackage in Eb. cbv zeta in Eb.
    destruct isRoot; [|discriminate].
    destruct (bytes_eqb _ _ || bytes_eqb _ _); [|discriminate].
    destruct (negb (IsIdentifier _)); [|discriminate].
    inversion Eb. simpl. eauto.
Qed.

(** ** Where [fixGo] puts its edits *)

Lemma on_header_import {T : Toolchain} (srcMod dstMod : bytes) (f : File)
    (spec : ImportSpec) :
  In spec (Imports f) ->
  Forall (on_header f) (import_edits srcMod dstMod spec).
Proof.
  intros Hin.
  assert (Hins : forall t,
    on_header f {| edit.start := at_ (ValuePos (spec_Path spec));
                   edit.end_ := at_ (ValuePos (spec_Path spec));
                   edit.new := t |})
    by (intros t; right; exists spec; simpl; auto).
  assert (Hrep : forall t,
    on_header f {| edit.start := at_ (ValuePos (spec_Path spec));
                   edit.end_ := at_ (BasicLit_End (spec_Path spec));
                   edit.new := t |})
    by (intros t; right; exists spec; simpl; auto).
  unfold import_edits, fixImport. cbv zeta.
  destruct (Unquote (Value (spec_Path spec))) as [p|]; [|constructor].
  destruct (bytes_eqb p srcMod);
    destruct (negb (bytes_eqb (path.Base srcMod) (path.Base dstMod))
              && is_nil (spec_Name spec));
    destruct (strings.HasPrefix p (srcMod ++ B "/"));
    unfold edit.Replace, edit.Insert, edit.NewBuffer;
    cbn [edit.q edit.old app];
    repeat (apply Forall_cons; [apply Hins || apply Hrep|]);
    apply Forall_nil.
Qed.

(** X2: whatever the file and the identities, every edit [fixGo] queues
    lies on the package name or on the path literal of an import spec,
    and there are at most one edit for the package clause and two for
    each import spec. *)
Theorem edits_on_header_spans {T : Toolchain} (data srcMod dstMod : bytes)
    (isRoot : bool) (f : File) (buf : edit.Buffer) :
  fixGo_buffer data f srcMod dstMod isRoot = Ok buf ->
  edit.old buf = data
  /\ Forall (on_header f) (edit.q buf)
  /\ length (edit.q buf) <= 1 + 2 * length (Imports f).
Proof.
  intros Hbuf. apply fixGo_buffer_queue in Hbuf. subst buf.
  cbn [edit.old edit.q]. split; [reflexivity|].
  assert (Hpkg : Forall (on_header f) (package_edits srcMod dstMod f isRoot)
                 /\ length (package_edits srcMod dstMod f isRoot) <= 1).
  { unfold package_edits, fixPackage. cbv zeta.
    destruct isRoot; [|split; [constructor | simpl; lia]].
    destruct (bytes_eqb _ _ || bytes_eqb _ _);
      [|split; [constructor | simpl; lia]].
    destruct (negb (IsIdentifier _)); [split; [constructor | simpl; lia]|].
    split; [|simpl; lia]. apply Forall_cons; [|apply Forall_nil].
    left. simpl. auto. }
  destruct Hpkg as [Hp Hlen]. split.
  - apply Forall_app. split; [exact Hp|].
    apply Forall_flat_map. apply Forall_forall. intros s Hin.
    apply on_header_import. exact Hin.
  - rewrite length_app.
    assert (Hi : forall l,
      length (flat_map (import_edits srcMod dstMod) l) <= 2 * length l).
    { induction l as [|s l IH]; [simpl; lia|].
      cbn [flat_map]. rewrite length_app.
      assert (length (import_edits srcMod dstMod s) <= 2).
      { unfold import_edits, fixImport. cbv zeta.
        destruct (Unquote (Value (spec_Path s))) as [p|]; [|simpl; lia].
        destruct (bytes_eqb p srcMod) eqn:E.
        - rewrite (self_not_subpackage _ _ E).
          destruct (negb (bytes_eqb (path.Base srcMod) (path.Base dstMod))
                    && is_nil (spec_Name s)); simpl; lia.
        - destruct (strings.HasPrefix p (srcMod ++ B "/")); simpl; lia. }
      simpl length. lia. }
    specialize (Hi (Imports f)). lia.
Qed.

(** ** The phases of [initProject] *)

Section PhaseFacts.

Context {T : Toolchain} {M : Modfile} {P : Platform} {C : Codecs}.

(** With valid identities [initProject] goes on to the check of the
    destination directory. *)
Lemma initProject_run_checked (arg0 : bytes) (more : list bytes) :
  invalid_identity (arg0 :: more) = false ->
  initProject_run (arg0 :: more)
  = checked_run (version_of arg0) (destination (arg0 :: more))
      (new_identity (arg0 :: more)).
Proof.
  unfold invalid_identity. intros H. apply orb_false_iff in H.
  destruct H as [Hsrc Hdst]. apply negb_false_iff in Hsrc.
  unfold initProject_run. cbv zeta. rewrite Hsrc, Hdst. simpl negb.
  cbv iota. rewrite (destination_is_dir _ _ Hsrc).
  destruct more as [|arg1 more]; reflexivity.
Qed.

Lemma initProject_run_surplus (a0 a1 a2 a3 : bytes) (rest : list bytes) :
  initProject_run (a0 :: a1 :: a2 :: a3 :: rest) = initProject_run [a0; a1].
Proof. reflexivity. Qed.

(** X3: with more than three arguments the usage is printed; when that
    fails the run returns, and otherwise it goes on as the run of the
    first two arguments alone: the directory and all later arguments are
    ignored. *)
Theorem surplus_arguments_ignored (a0 a1 a2 a3 : bytes) (rest : list bytes)
    (tr : list call) (res : result) :
  runs (initProject (a0 :: a1 :: a2 :: a3 :: rest)) tr res <->
  exists ok tr',
    tr = Call Usage ok :: tr'
    /\ if ok then runs (initProject [a0; a1]) tr' res
       else tr' = [] /\ res = Returned.
Proof.
  unfold initProject. cbn [length Nat.ltb Nat.leb orb].
  rewrite initProject_run_surplus. cbn [runs].
  split; intros (ok & tr' & Htr & H); exists ok, tr'; (split; [exact Htr|]);
    destruct ok; exact H.
Qed.

(** X4: in no run is a directory made or a file created or written
    before [go mod download] has succeeded and its output has named the
    directory of the module. *)
Theorem no_write_before_fetch (args : list bytes) (tr : list call)
    (res : result) :
  runs (initProject args) tr res -> no_write_until_fetch tr = true.
Proof.
  assert (Hrun : forall tr, runs (initProject_run args) tr res ->
                            no_write_until_fetch tr = true).
  { clear tr. intros tr Hrun. destruct args as [|arg0 more].
    - simpl in Hrun. destruct Hrun as [-> _]. reflexivity.
    - destruct (invalid_identity (arg0 :: more)) eqn:V.
      + destruct (invalid_identity_exits _ V) as [what E].
        rewrite E in Hrun. simpl in Hrun. destruct Hrun as [-> _].
        reflexivity.
      + rewrite (initProject_run_checked _ _ V) in Hrun.
        unfold checked_run in Hrun. cbn [runs] in Hrun.
        destruct Hrun as ([de err_nil] & tr1 & -> & Hrun).
        cbn [no_write_until_fetch fetch_ok writes negb andb].
        destruct (err_nil && (0 <? length de)).
        * simpl in Hrun. destruct Hrun as [-> _]. reflexivity.
        * cbn [runs] in Hrun.
          destruct Hrun as ([ran stdout] & tr2 & -> & Hrun).
          cbn [no_write_until_fetch fetch_ok fst snd].
          destruct ran; cbn [negb andb] in *.
          -- destruct (json_Dir stdout) as [infoDir|]; [reflexivity|].
             simpl in Hrun. destruct Hrun as [-> _]. reflexivity.
          -- simpl in Hrun. destruct Hrun as [-> _]. reflexivity. }
  unfold initProject. destruct ((length args <? 1) || (3 <? length args)).
  - cbn [runs]. intros (ok & tr' & -> & H).
    cbn [no_write_until_fetch fetch_ok writes negb andb].
    destruct ok; [apply Hrun; exact H|].
    simpl in H. destruct H as [-> _]. reflexivity.
  - apply Hrun.
Qed.

(** X5: with valid identities and at most three arguments, the first
    call reads the destination directory.  An answer without error and
    with an entry ends the run.  Otherwise the next call fetches
    [args[0]], at [@latest] when it names no version; a failed fetch
    ends the run; after a fetch that succeeded, a directory that could
    not be read is made, which ends the run when it fails, and the copy
    begins. *)
Theorem destination_then_fetch (arg0 : bytes) (more : list bytes)
    (tr : list call) (res : result) :
  length more <= 2 ->
  invalid_identity (arg0 :: more) = false ->
  runs (initProject (arg0 :: more)) tr res ->
  let dir := destination (arg0 :: more) in
  let dst := new_identity (arg0 :: more) in
  exists de err_nil tr1,
    tr = Call (ReadDir dir) (de, err_nil) :: tr1
    /\ if err_nil && (0 <? length de)
       then tr1 = [] /\ res = Exited DestinationError
       else exists ran stdout tr2,
         tr1 = Call (GoModDownload (version_of arg0)) (ran, stdout) :: tr2
         /\ match ran, json_Dir stdout with
            | true, Some infoDir =>
                if err_nil then runs (copy_phase infoDir dir dst) tr2 res
                else exists ok tr3,
                  tr2 = Call (MkdirAll dir) ok :: tr3
                  /\ if ok then runs (copy_phase infoDir dir dst) tr3 res
                     else tr3 = [] /\ res = Exited IOError
            | _, _ => tr2 = [] /\ res = Exited FetchError
            end.
Proof.
  intros Hlen Hvalid Hrun dir dst. unfold initProject in Hrun.
  assert (G : (length (arg0 :: more) <? 1) || (3 <? length (arg0 :: more))
              = false).
  { apply orb_false_iff. split; [reflexivity|]. apply Nat.ltb_ge.
    simpl. lia. }
  rewrite G, (initProject_run_checked _ _ Hvalid) in Hrun.
  fold dir dst in Hrun. unfold checked_run in Hrun. cbn [runs] in Hrun.
  destruct Hrun as ([de err_nil] & tr1 & -> & Hrun).
  exists de, err_nil, tr1. split; [reflexivity|].
  destruct (err_nil && (0 <? length de)); [exact Hrun|].
  cbn [runs] in Hrun. destruct Hrun as ([ran stdout] & tr2 & -> & Hrun).
  exists ran, stdout, tr2. split; [reflexivity|].
  destruct ran; cbn [negb] in Hrun; [|exact Hrun].
  destruct (json_Dir stdout) as [infoDir|]; [|exact Hrun].
  destruct err_nil; cbn [negb] in Hrun; [exact Hrun|].
  cbn [runs] in Hrun. destruct Hrun as (ok & tr3 & -> & Hrun).
  exists ok, tr3. split; [reflexivity|]. destruct ok; exact Hrun.
Qed.

End PhaseFacts.

(** ** The module and the version named by the first argument *)

Lemma HasPrefix_at (c : ascii) (s : bytes) :
  strings.HasPrefix (c :: s) (B "@") = Ascii.eqb c "@"%char.
Proof.
  unfold strings.HasPrefix. simpl. rewrite andb_true_r. reflexivity.
Qed.

Lemma Index_at_none (m : bytes) :
  no_at m -> strings.Index m (B "@") = None.
Proof.
  induction 1 as [|c m Hc _ IH]; [reflexivity|].
  cbn [strings.Index]. rewrite HasPrefix_at.
  apply Ascii.eqb_neq in Hc. rewrite Hc, IH. reflexivity.
Qed.

Lemma Index_at_first (m v : bytes) :
  no_at m -> strings.Index (m ++ B "@" ++ v) (B "@") = Some (length m).
Proof.
  induction 1 as [|c m Hc _ IH].
  - change ([] ++ B "@" ++ v) with ("@"%char :: v).
    cbn [strings.Index]. rewrite HasPrefix_at. reflexivity.
  - change ((c :: m) ++ B "@" ++ v) with (c :: (m ++ B "@" ++ v)).
    cbn [strings.Index]. rewrite HasPrefix_at.
    apply Ascii.eqb_neq in Hc. rewrite Hc, IH. reflexivity.
Qed.

(** X6: an argument [m] without [@] names the module [m] and is fetched
    as [m@latest]; an argument [m@v] names the module [m], the part
    before its first [@], and is fetched as it is. *)
Theorem source_and_version (m v : bytes) :
  no_at m ->
  source_of m = m
  /\ version_of m = m ++ B "@latest"
  /\ source_of (m ++ B "@" ++ v) = m
  /\ version_of (m ++ B "@" ++ v) = m ++ B "@" ++ v.
Proof.
  intros Hm. unfold source_of, version_of, strings.Cut, strings.Contains.
  rewrite (Index_at_none Hm), (Index_at_first v Hm). simpl negb. cbv iota.
  cbn [fst]. repeat split.
  rewrite firstn_app, Nat.sub_diag, firstn_all. simpl. apply app_nil_r.
Qed.

(** ** The copy, the prompts and the expansion *)

Section CopyFacts.

Context {T : Toolchain} {M : Modfile} {P : Platform} {C : Codecs}.

(** A run of the copy makes calls of the copy only and then either goes
    on with what follows or has ended the process. *)
Lemma copy_tree_runs (infoDir dir dst : bytes) (all : list WalkEntry)
    (k : prog) (res : result) :
  forall (entries : list WalkEntry) (tr : list call),
    incl entries all ->
    runs (copy_tree infoDir dir dst entries k) tr res ->
    exists tr1 tr2,
      tr = tr1 ++ tr2
      /\ Forall (copy_call infoDir dir all) tr1
      /\ (runs k tr2 res \/ (tr2 = [] /\ exists e, res = Exited e)).
Proof.
  assert (Hstop : forall e tr, runs (Exit e) tr res ->
    exists tr1 tr2, tr = tr1 ++ tr2
      /\ Forall (copy_call infoDir dir all) tr1
      /\ (runs k tr2 res \/ (tr2 = [] /\ exists e, res = Exited e))).
  { intros e tr [-> ->]. exists [], []. repeat split; [constructor|].
    right. split; [reflexivity|]. exists e. reflexivity. }
  induction entries as [|en rest IH]; intros tr Hin Hrun.
  - exists [], tr. repeat split; [constructor|]. left. exact Hrun.
  - assert (Hen : In en all) by (apply Hin; left; reflexivity).
    assert (Hrest : incl rest all)
      by (intros x Hx; apply Hin; right; exact Hx).
    cbn [copy_tree] in Hrun. cbv zeta in Hrun.
    destruct (w_err en); [exact (Hstop _ _ Hrun)|].
    destruct (Rel infoDir (w_path en)) as [rel|] eqn:Hrel;
      [|exact (Hstop _ _ Hrun)].
    assert (Hnext : forall (c : call) tr',
      copy_call infoDir dir all c ->
      (runs (copy_tree infoDir dir dst rest k) tr' res
       \/ exists e, runs (Exit e) tr' res) ->
      exists tr1 tr2, c :: tr' = tr1 ++ tr2
        /\ Forall (copy_call infoDir dir all) tr1
        /\ (runs k tr2 res \/ (tr2 = [] /\ exists e, res = Exited e))).
    { intros c tr' Hc [H|[e H]].
      - destruct (IH _ Hrest H) as (tr1 & tr2 & -> & Hall & Hk).
        exists (c :: tr1), tr2. repeat split; [|exact Hk].
        constructor; assumption.
      - destruct (Hstop _ _ H) as (tr1 & tr2 & -> & Hall & Hk).
        exists (c :: tr1), tr2. repeat split; [|exact Hk].
        constructor; assumption. }
    destruct (w_isDir en) eqn:Hdir.
    + cbn [runs] in Hrun. destruct Hrun as (ok & tr' & -> & Hrun).
      apply Hnext.
      * exists en, rel. repeat split; assumption.
      * destruct ok; [left|right; exists IOError]; exact Hrun.
    + cbn [runs] in Hrun. destruct Hrun as (r & tr' & -> & Hrun).
      assert (Hread : copy_call infoDir dir all
                        (Call (ReadFile (w_path en)) r)).
      { exists en. repeat split; assumption. }
      destruct r as [data|];
        [|apply Hnext; [exact Hread|right; exists IOError; exact Hrun]].
      unfold lift in Hrun.
      destruct (if strings.HasSuffix rel (B ".go")
                then fixGo data rel (w_path en) dst
                       (negb (strings.Contains rel [Separator]))
                else Ok data) as [d1|e1];
        [|apply Hnext; [exact Hread|right; exists e1; exact Hrun]].
      destruct (if bytes_eqb rel (B "go.mod") then fixGoMod d1 dst
                else Ok d1) as [d2|e2].
      * cbn [runs] in Hrun. destruct Hrun as (ok & tr'' & -> & Hrun).
        destruct (Hnext (Call (WriteFile (Join dir rel) d2) ok) tr'')
          as (tr1 & tr2 & E & Hall & Hk).
        { exists en, rel. repeat split; assumption. }
        { destruct ok; [left|right; exists IOError]; exact Hrun. }
        exists (Call (ReadFile (w_path en)) (Some data) :: tr1), tr2.
        rewrite E. repeat split; [|exact Hk]. constructor; assumption.
      * destruct Hrun as [-> ->].
        exists [Call (ReadFile (w_path en)) (Some data)], [].
        repeat split; [constructor; [exact Hread|constructor]|].
        right. split; [reflexivity|]. exists e2. reflexivity.
Qed.

Ltac run_exited :=
  match goal with
  | H : runs _ _ Returned |- _ =>
      cbv beta iota in H; destruct H as [_ H]; discriminate H
  end.

Lemma split_cons (Q : call -> Prop) (R : list call -> Prop) (c : call)
    (tr : list call) :
  Q c ->
  (exists tr1 tr2, tr = tr1 ++ tr2 /\ Forall Q tr1 /\ R tr2) ->
  exists tr1 tr2, c :: tr = tr1 ++ tr2 /\ Forall Q tr1 /\ R tr2.
Proof.
  intros Hc (tr1 & tr2 & -> & Hall & HR). exists (c :: tr1), tr2.
  repeat split; [constructor; assumption|exact HR].
Qed.

Lemma split_exit (Q : call -> Prop) (k : prog) (e : error) (tr : list call)
    (res : result) :
  runs (Exit e) tr res ->
  exists tr1 tr2,
    tr = tr1 ++ tr2 /\ Forall Q tr1
    /\ (runs k tr2 res \/ (tr2 = [] /\ exists e, res = Exited e)).
Proof.
  intros [-> ->]. exists [], []. repeat split; [constructor|].
  right. split; [reflexivity|]. exists e. reflexivity.
Qed.

Lemma copied_more (infoDir dir : bytes) (tr tr' : list call)
    (en : WalkEntry) :
  incl tr tr' -> copied infoDir dir tr en -> copied infoDir dir tr' en.
Proof.
  intros Hsub (rel & Hrel & H). exists rel. split; [exact Hrel|].
  destruct (w_isDir en); [apply Hsub; exact H|].
  destruct H as (data & out & H1 & H2). exists data, out.
  split; apply Hsub; assumption.
Qed.

Lemma expanded_more (dir : bytes) (inputs : list (bytes * bytes))
    (tr tr' : list call) (en : WalkEntry) :
  incl tr tr' -> expanded dir inputs tr en -> expanded dir inputs tr' en.
Proof.
  intros Hsub H Hfile.
  destruct (H Hfile) as (rel & content & tmpl & H1 & H2 & H3 & H4).
  exists rel, content, tmpl. repeat split; try assumption;
    apply Hsub; assumption.
Qed.

(** A run of the copy that returns has gone through the whole listing. *)
Lemma copy_tree_returned (infoDir dir dst : bytes) (k : prog) :
  forall (entries : list WalkEntry) (tr : list call),
    runs (copy_tree infoDir dir dst entries k) tr Returned ->
    exists tr1 tr2,
      tr = tr1 ++ tr2 /\ runs k tr2 Returned
      /\ Forall (copied infoDir dir tr1) entries.
Proof.
  induction entries as [|en rest IH]; intros tr Hrun.
  - exists [], tr. repeat split; [exact Hrun|constructor].
  - cbn [copy_tree] in Hrun. cbv zeta in Hrun.
    destruct (w_err en); [run_exited|].
    destruct (Rel infoDir (w_path en)) as [rel|] eqn:Hrel; [|run_exited].
    destruct (w_isDir en) eqn:Hdir.
    + cbn [runs] in Hrun. destruct Hrun as (ok & tr' & -> & Hrun).
      destruct ok; [|run_exited].
      destruct (IH _ Hrun) as (tr1 & tr2 & -> & Hk & Hall).
      exists (Call (MkdirAll (Join dir rel)) true :: tr1), tr2.
      split; [reflexivity|]. split; [exact Hk|]. constructor.
      * exists rel. split; [exact Hrel|]. rewrite Hdir. left. reflexivity.
      * eapply Forall_impl; [|exact Hall]. intros a. apply copied_more.
        apply incl_tl, incl_refl.
    + cbn [runs] in Hrun. destruct Hrun as (r & tr' & -> & Hrun).
      destruct r as [data|]; [|run_exited].
      unfold lift in Hrun.
      destruct (if strings.HasSuffix rel (B ".go")
                then fixGo data rel (w_path en) dst
                       (negb (strings.Contains rel [Separator]))
                else Ok data) as [d1|e1]; [|run_exited].
      destruct (if bytes_eqb rel (B "go.mod") then fixGoMod d1 dst
                else Ok d1) as [d2|e2]; [|run_exited].
      cbn [runs] in Hrun. destruct Hrun as (ok & tr'' & -> & Hrun).
      destruct ok; [|run_exited].
      destruct (IH _ Hrun) as (tr1 & tr2 & -> & Hk & Hall).
      exists (Call (ReadFile (w_path en)) (Some data)
              :: Call (WriteFile (Join dir rel) d2) true :: tr1), tr2.
      split; [reflexivity|]. split; [exact Hk|]. constructor.
      * exists rel. split; [exact Hrel|]. rewrite Hdir. exists data, d2.
        split; [left; reflexivity|right; left; reflexivity].
      * eapply Forall_impl; [|exact Hall]. intros a. apply copied_more.
        apply incl_tl, incl_tl, incl_refl.
Qed.

(** A run of the expansion makes calls of the expansion only and then
    either goes on with what follows or has ended the process. *)
Lemma replaceVars_walk_runs (dir : bytes) (inputs : list (bytes * bytes))
    (all : list WalkEntry) (k : prog) (res : result) :
  forall (entries : list WalkEntry) (tr : list call),
    incl entries all ->
    runs (replaceVars_walk dir inputs entries k) tr res ->
    exists tr1 tr2,
      tr = tr1 ++ tr2
      /\ Forall (expand_call dir inputs all) tr1
      /\ (runs k tr2 res \/ (tr2 = [] /\ exists e, res = Exited e)).
Proof.
  induction entries as [|en rest IH]; intros tr Hin Hrun.
  - exists [], tr. repeat split; [constructor|]. left. exact Hrun.
  - assert (Hen : In en all) by (apply Hin; left; reflexivity).
    assert (Hrest : incl rest all)
      by (intros x Hx; apply Hin; right; exact Hx).
    cbn [replaceVars_walk] in Hrun.
    destruct (w_err en); [exact (split_exit _ _ Hrun)|].
    destruct (w_isDir en) eqn:Hdir; cbn [negb] in Hrun; cbv iota in Hrun;
      [exact (IH _ Hrest Hrun)|].
    destruct (Rel dir (w_path en)) as [rel|] eqn:Hrel;
      [|exact (split_exit _ _ Hrun)].
    cbn [runs] in Hrun. destruct Hrun as (r & tr' & -> & Hrun).
    apply split_cons; [exists en; repeat split; assumption|].
    destruct r as [content|]; [|exact (split_exit _ _ Hrun)].
    unfold generateFile in Hrun.
    destruct (template_Parse rel content) as [tmpl|];
      [|exact (split_exit _ _ Hrun)].
    cbv zeta in Hrun. cbn [runs] in Hrun.
    destruct Hrun as (ok1 & tr1 & -> & Hrun).
    apply split_cons; [exists en, rel; repeat split; assumption|].
    destruct ok1; cbn [negb] in Hrun; cbv iota in Hrun;
      [|exact (split_exit _ _ Hrun)].
    cbn [runs] in Hrun. destruct Hrun as (ok2 & tr2 & -> & Hrun).
    apply split_cons; [exists en, rel; repeat split; assumption|].
    destruct ok2; cbn [negb] in Hrun; cbv iota in Hrun;
      [|exact (split_exit _ _ Hrun)].
    cbn [runs] in Hrun. destruct Hrun as (ok3 & tr3 & -> & Hrun).
    apply split_cons; [exists en, rel; repeat split; assumption|].
    destruct ok3; cbn [negb] in Hrun; cbv iota in Hrun;
      [|exact (split_exit _ _ Hrun)].
    exact (IH _ Hrest Hrun).
Qed.

(** A run of the expansion that returns has expanded every file of the
    listing. *)
Lemma replaceVars_walk_returned (dir : bytes)
    (inputs : list (bytes * bytes)) (k : prog) :
  forall (entries : list WalkEntry) (tr : list call),
    runs (replaceVars_walk dir inputs entries k) tr Returned ->
    exists tr1 tr2,
      tr = tr1 ++ tr2 /\ runs k tr2 Returned
      /\ Forall (expanded dir inputs tr1) entries.
Proof.
  induction entries as [|en rest IH]; intros tr Hrun.
  - exists [], tr. repeat split; [exact Hrun|constructor].
  - cbn [replaceVars_walk] in Hrun.
    destruct (w_err en); [run_exited|].
    destruct (w_isDir en) eqn:Hdir; cbn [negb] in Hrun; cbv iota in Hrun.
    { destruct (IH _ Hrun) as (tr1 & tr2 & -> & Hk & Hall).
      exists tr1, tr2. repeat split; [exact Hk|]. constructor; [|exact Hall].
      intros Hfile. rewrite Hdir in Hfile. discriminate Hfile. }
    destruct (Rel dir (w_path en)) as [rel|] eqn:Hrel; [|run_exited].
    cbn [runs] in Hrun. destruct Hrun as (r & tr' & -> & Hrun).
    destruct r as [content|]; [|run_exited].
    unfold generateFile in Hrun.
    destruct (template_Parse rel content) as [tmpl|] eqn:Htmpl;
      [|run_exited].
    cbv zeta in Hrun. cbn [runs] in Hrun.
    destruct Hrun as (ok1 & tr1 & -> & Hrun).
    destruct ok1; cbn [negb] in Hrun; [|run_exited]. cbv iota in Hrun.
    cbn [runs] in Hrun. destruct Hrun as (ok2 & tr2 & -> & Hrun).
    destruct ok2; cbn [negb] in Hrun; [|run_exited]. cbv iota in Hrun.
    cbn [runs] in Hrun. destruct Hrun as (ok3 & tr3 & -> & Hrun).
    destruct ok3; cbn [negb] in Hrun; [|run_exited]. cbv iota in Hrun.
    destruct (IH _ Hrun) as (tr4 & tr5 & -> & Hk & Hall).
    exists (Call (ReadFile (w_path en)) (Some content)
            :: Call (MkdirAll (Dir (Join dir rel))) true
            :: Call (Create (Join dir rel)) true
            :: Call (Execute tmpl inputs (Join dir rel)) true :: tr4), tr5.
    split; [reflexivity|]. split; [exact Hk|]. constructor.
    + intros _. exists rel, content, tmpl.
      split; [exact Hrel|]. split; [left; reflexivity|].
      split; [exact Htmpl|]. right. right. right. left. reflexivity.
    + eapply Forall_impl; [|exact Hall]. intros a. apply expanded_more.
      apply incl_tl, incl_tl, incl_tl, incl_tl, incl_refl.
Qed.

(** X7: after listing the module cache, the copy reads only files of
    the listing, and makes directories and writes files only at the path
    of an entry relative to the cache, joined to the destination; it
    makes no other call until it is through or has ended the process. *)
Theorem copy_calls_only (infoDir dir dst : bytes) (tr : list call)
    (res : result) :
  runs (copy_phase infoDir dir dst) tr res ->
  exists entries tr1 tr2,
    tr = Call (WalkDir infoDir) entries :: tr1 ++ tr2
    /\ Forall (copy_call infoDir dir entries) tr1
    /\ (runs (after_copy dir) tr2 res
        \/ (tr2 = [] /\ exists e, res = Exited e)).
Proof.
  unfold copy_phase. cbn [runs]. intros (entries & tr' & -> & Hrun).
  destruct (@copy_tree_runs infoDir dir dst entries _ res entries tr'
              (incl_refl entries) Hrun)
    as (tr1 & tr2 & -> & Hall & Hk).
  exists entries, tr1, tr2. repeat split; assumption.
Qed.

Lemma go_file_not_manifest (rel : bytes) :
  strings.HasSuffix rel (B ".go") = true -> bytes_eqb rel (B "go.mod") = false.
Proof.
  intros H. destruct (bytes_eqb rel (B "go.mod")) eqn:E; [|reflexivity].
  apply bytes_eqb_eq in E. subst rel. discriminate H.
Qed.

(** Without a package clause or an import that matches, no edit is
    queued. *)
Lemma fixGo_buffer_untouched (data O N : bytes) (isRoot : bool) (f : File) :
  (forall spec pth,
     In spec (Imports f) -> Unquote (Value (spec_Path spec)) = Some pth ->
     pth <> O /\ strings.HasPrefix pth (O ++ B "/") = false) ->
  Name (file_Name f) <> path.Base O ->
  Name (file_Name f) <> path.Base O ++ B "_test" ->
  fixGo_buffer data f O N isRoot = Ok (edit.NewBuffer data).
Proof.
  intros Himp H1 H2. unfold fixGo_buffer. cbv zeta.
  assert (Hpkg : fixPackage (edit.NewBuffer data) f (path.Base O)
                   (path.Base N) isRoot = Ok (edit.NewBuffer data)).
  { unfold fixPackage. destruct isRoot; [|reflexivity].
    apply bytes_eqb_neq in H1, H2. cbv zeta. rewrite H1, H2. reflexivity. }
  rewrite Hpkg. unfold bind. f_equal.
  assert (Hfold : forall l buf, incl l (Imports f) ->
    fold_left (fixImport O N (path.Base O) (path.Base N)) l buf = buf).
  { induction l as [|s l IH]; intros buf Hsub; [reflexivity|].
    simpl. rewrite IH by (intros x Hx; apply Hsub; right; exact Hx).
    unfold fixImport.
    destruct (Unquote (Value (spec_Path s))) as [pth|] eqn:E; [|reflexivity].
    destruct (Himp s pth (Hsub s (or_introl eq_refl)) E) as [H3 H4].
    apply bytes_eqb_neq in H3. cbv zeta. rewrite H3, H4. reflexivity. }
  apply Hfold, incl_refl.
Qed.

Lemma read_call_inj (name : bytes) (r1 r2 : option bytes)
    (t1 t2 : list call) :
  Call (ReadFile name) r1 :: t1 = Call (ReadFile name) r2 :: t2 ->
  r1 = r2 /\ t1 = t2.
Proof.
  intros H. split.
  - apply (f_equal (fun l =>
      match l with
      | Call c r :: _ =>
          match c in io A return A -> option bytes with
          | ReadFile _ => fun r => r
          | _ => fun _ => None
          end r
      | [] => None
      end)) in H. exact H.
  - apply (f_equal (@tl call)) in H. exact H.
Qed.

(** X8: the old identity that the copy hands to [fixGo] is the path of
    the file in the module cache.  So a Go file that imports neither that
    path nor a path below it, and whose package is not named after it, is
    written as it was read, whatever it imports of the old module. *)
Theorem go_file_compared_with_cache_path (infoDir dir dst : bytes)
    (en : WalkEntry) (rest : list WalkEntry) (k : prog) (rel data : bytes)
    (f : File) (tr' : list call) (res : result) :
  w_err en = false ->
  w_isDir en = false ->
  Rel infoDir (w_path en) = Some rel ->
  strings.HasSuffix rel (B ".go") = true ->
  ParseFile rel data = Some f ->
  (forall spec pth,
     In spec (Imports f) ->
     Unquote (Value (spec_Path spec)) = Some pth ->
     pth <> w_path en
     /\ strings.HasPrefix pth (w_path en ++ B "/") = false) ->
  Name (file_Name f) <> path.Base (w_path en) ->
  Name (file_Name f) <> path.Base (w_path en) ++ B "_test" ->
  runs (copy_tree infoDir dir dst (en :: rest) k)
    (Call (ReadFile (w_path en)) (Some data) :: tr') res ->
  exists ok tr'',
    tr' = Call (WriteFile (Join dir rel) data) ok :: tr''
    /\ if ok then runs (copy_tree infoDir dir dst rest k) tr'' res
       else tr'' = [] /\ res = Exited IOError.
Proof.
  intros Herr Hfile Hrel Hgo Hparse Himp H1 H2 Hrun.
  cbn [copy_tree] in Hrun. cbv zeta in Hrun.
  rewrite Herr, Hrel, Hfile, Hgo in Hrun.
  rewrite (go_file_not_manifest _ Hgo) in Hrun.
  cbn [runs] in Hrun. destruct Hrun as (r & tr0 & E & Hrun).
  apply read_call_inj in E. destruct E as [<- <-].
  unfold fixGo in Hrun. rewrite Hparse in Hrun. unfold fixGo_parsed in Hrun.
  rewrite (@fixGo_buffer_untouched data (w_path en) dst _ f Himp H1 H2)
    in Hrun.
  cbn in Hrun. destruct Hrun as (ok & tr'' & -> & Hrun).
  exists ok, tr''. split; [reflexivity|]. destruct ok; exact Hrun.
Qed.

(** X9: a file of the cache whose relative path neither ends in [.go]
    nor is [go.mod] is written with the content that was read; this
    holds for a [go.mod] below the root. *)
Theorem other_file_copied_as_read (infoDir dir dst : bytes)
    (en : WalkEntry) (rest : list WalkEntry) (k : prog) (rel : bytes)
    (tr : list call) (res : result) :
  w_err en = false ->
  w_isDir en = false ->
  Rel infoDir (w_path en) = Some rel ->
  strings.HasSuffix rel (B ".go") = false ->
  rel <> B "go.mod" ->
  runs (copy_tree infoDir dir dst (en :: rest) k) tr res ->
  exists r tr',
    tr = Call (ReadFile (w_path en)) r :: tr'
    /\ match r with
       | None => tr' = [] /\ res = Exited IOError
       | Some data =>
           exists ok tr'',
             tr' = Call (WriteFile (Join dir rel) data) ok :: tr''
             /\ if ok then runs (copy_tree infoDir dir dst rest k) tr'' res
                else tr'' = [] /\ res = Exited IOError
       end.
Proof.
  intros Herr Hfile Hrel Hgo Hmod Hrun. cbn [copy_tree] in Hrun.
  cbv zeta in Hrun. apply bytes_eqb_neq in Hmod.
  rewrite Herr, Hrel, Hfile, Hgo, Hmod in Hrun.
  cbn [runs] in Hrun. destruct Hrun as (r & tr' & -> & Hrun).
  exists r, tr'. split; [reflexivity|].
  destruct r as [data|]; [|exact Hrun].
  cbn in Hrun. destruct Hrun as (ok & tr'' & -> & Hrun).
  exists ok, tr''. split; [reflexivity|]. destruct ok; exact Hrun.
Qed.

(** X10: the file [go.mod] at the root of the cache is not passed to
    [fixGo]; it is passed to [fixGoMod] with the new identity, and what
    [fixGoMod] returns is written, or its failure ends the run before
    anything is written for the file. *)
Theorem root_manifest_gets_new_identity (infoDir dir dst : bytes)
    (en : WalkEntry) (rest : list WalkEntry) (k : prog) (data : bytes)
    (tr' : list call) (res : result) :
  w_err en = false ->
  w_isDir en = false ->
  Rel infoDir (w_path en) = Some (B "go.mod") ->
  runs (copy_tree infoDir dir dst (en :: rest) k)
    (Call (ReadFile (w_path en)) (Some data) :: tr') res ->
  match fixGoMod data dst with
  | Fatal e => tr' = [] /\ res = Exited e
  | Ok out =>
      exists ok tr'',
        tr' = Call (WriteFile (Join dir (B "go.mod")) out) ok :: tr''
        /\ if ok then runs (copy_tree infoDir dir dst rest k) tr'' res
           else tr'' = [] /\ res = Exited IOError
  end.
Proof.
  intros Herr Hfile Hrel Hrun. cbn [copy_tree] in Hrun. cbv zeta in Hrun.
  rewrite Herr, Hrel, Hfile in Hrun.
  change (strings.HasSuffix (B "go.mod") (B ".go")) with false in Hrun.
  rewrite bytes_eqb_refl in Hrun. cbv iota in Hrun.
  cbn [runs] in Hrun. destruct Hrun as (r & tr0 & E & Hrun).
  apply read_call_inj in E. destruct E as [<- <-].
  cbn [lift] in Hrun. cbv iota beta in Hrun.
  destruct (fixGoMod data dst) as [out|e]; cbn [lift] in Hrun.
  - cbn [runs] in Hrun. destruct Hrun as (ok & tr'' & -> & Hrun).
    exists ok, tr''. split; [reflexivity|]. destruct ok; exact Hrun.
  - exact Hrun.
Qed.

(** X11: [runPrompts] asks for the entries of the configuration in turn,
    by their descriptions.  When every prompt is answered, the answers
    are handed on under the keys of their entries; when one is not, the
    run ends there and no later entry is asked for. *)
Theorem prompts_answer_every_key (k : list (bytes * bytes) -> prog)
    (res : result) :
  forall (config answers : list (bytes * bytes)) (tr : list call),
    runs (runPrompts config answers k) tr res ->
    (exists names tr2,
       length names = length config
       /\ tr = prompt_calls config names ++ tr2
       /\ runs (k (answers ++ combine (map fst config) names)) tr2 res)
    \/ (exists asked key desc unasked names,
          config = asked ++ (key, desc) :: unasked
          /\ length names = length asked
          /\ tr = prompt_calls asked names ++ [Call (Prompt desc) None]
          /\ res = Exited IOError).
Proof.
  induction config as [|[key desc] rest IH]; intros answers tr Hrun.
  - left. exists [], tr. cbn [runPrompts] in Hrun.
    rewrite app_nil_r. repeat split. exact Hrun.
  - cbn [runPrompts runs] in Hrun. destruct Hrun as (r & tr' & -> & Hrun).
    destruct r as [name|].
    + destruct (IH _ _ Hrun)
        as [(names & tr2 & Hlen & -> & Hk)
           |(asked & key' & desc' & unasked & names & -> & Hlen & -> & ->)].
      * left. exists (name :: names), tr2. split; [simpl; lia|].
        split; [reflexivity|]. rewrite <- app_assoc in Hk. exact Hk.
      * right. exists ((key, desc) :: asked), key', desc', unasked,
          (name :: names).
        repeat split. simpl. lia.
    + destruct Hrun as [-> ->]. right.
      exists [], key, desc, rest, []. repeat split.
Qed.

Lemma runPrompts_returned (k : list (bytes * bytes) -> prog) :
  forall (config answers : list (bytes * bytes)) (tr : list call),
    runs (runPrompts config answers k) tr Returned ->
    exists names tr2,
      length names = length config
      /\ tr = prompt_calls config names ++ tr2
      /\ runs (k (answers ++ combine (map fst config) names)) tr2 Returned.
Proof.
  induction config as [|[key desc] rest IH]; intros answers tr Hrun.
  - exists [], tr. cbn [runPrompts] in Hrun.
    rewrite app_nil_r. repeat split. exact Hrun.
  - cbn [runPrompts runs] in Hrun. destruct Hrun as (r & tr' & -> & Hrun).
    destruct r as [name|]; [|run_exited].
    destruct (IH _ _ Hrun) as (names & tr2 & Hlen & -> & Hk).
    exists (name :: names), tr2. split; [simpl; lia|].
    split; [reflexivity|]. rewrite <- app_assoc in Hk. exact Hk.
Qed.

(** X12: after listing the new directory, [replaceVars] reads only
    files of the listing and, for the path of such a file relative to
    the directory, makes its directory, creates the file and executes its
    template, always on the same answers; directories of the listing
    cause no call. *)
Theorem expansion_calls_only (dir : bytes) (inputs : list (bytes * bytes))
    (k : prog) (tr : list call) (res : result) :
  runs (replaceVars dir inputs k) tr res ->
  exists entries tr1 tr2,
    tr = Call (Walk dir) entries :: tr1 ++ tr2
    /\ Forall (expand_call dir inputs entries) tr1
    /\ (runs k tr2 res \/ (tr2 = [] /\ exists e, res = Exited e)).
Proof.
  unfold replaceVars. cbn [runs]. intros (entries & tr' & -> & Hrun).
  destruct (@replaceVars_walk_runs dir inputs entries _ res entries tr'
              (incl_refl entries) Hrun)
    as (tr1 & tr2 & -> & Hall & Hk).
  exists entries, tr1, tr2. repeat split; assumption.
Qed.

Lemma expansion_write_more (dir : bytes) (tr tr' : list call) (c : call) :
  incl tr tr' -> expansion_write dir tr c -> expansion_write dir tr' c.
Proof.
  intros Hsub (inputs & walked & H1 & H2). exists inputs, walked.
  split; [apply Hsub; exact H1|exact H2].
Qed.

Lemma listed_write_more (dir : bytes) (tr tr' : list call) (c : call) :
  incl tr tr' -> listed_write dir tr c -> listed_write dir tr' c.
Proof.
  intros Hsub H Hw. destruct (H Hw) as [H1|[H1|H1]].
  - left. exact H1.
  - right. left.
    destruct H1 as (ver & stdout & infoDir & entries & H1 & H2 & H3 & H4).
    exists ver, stdout, infoDir, entries.
    repeat split; try assumption; apply Hsub; assumption.
  - right. right. exact (expansion_write_more Hsub H1).
Qed.

(** The writes of the expansion belong to its listing. *)
Lemma replaceVars_listed (dir : bytes) (inputs : list (bytes * bytes))
    (tr : list call) (res : result) :
  runs (replaceVars dir inputs Return) tr res ->
  Forall (fun c => writes c = true -> expansion_write dir tr c) tr.
Proof.
  unfold replaceVars. cbn [runs]. intros (entries & tr' & -> & Hrun).
  constructor; [intros H; discriminate H|].
  destruct (@replaceVars_walk_runs dir inputs entries _ res entries tr'
              (incl_refl entries) Hrun)
    as (tr1 & tr2 & -> & Hall & Hk).
  assert (E : tr2 = []) by (destruct Hk as [[E _]|[E _]]; exact E).
  subst tr2. rewrite app_nil_r.
  eapply Forall_impl; [|exact Hall]. intros c Hc _.
  exists inputs, entries. split; [left; reflexivity|exact Hc].
Qed.

(** The prompts write nothing. *)
Lemma runPrompts_listed (dir : bytes) (k : list (bytes * bytes) -> prog)
    (res : result) :
  (forall answers tr,
     runs (k answers) tr res ->
     Forall (fun c => writes c = true -> expansion_write dir tr c) tr) ->
  forall (config answers : list (bytes * bytes)) (tr : list call),
    runs (runPrompts config answers k) tr res ->
    Forall (fun c => writes c = true -> expansion_write dir tr c) tr.
Proof.
  intros Hk. induction config as [|[key desc] rest IH]; intros answers tr Hrun.
  - exact (Hk _ _ Hrun).
  - cbn [runPrompts runs] in Hrun. destruct Hrun as (r & tr' & -> & Hrun).
    constructor; [intros H; discriminate H|].
    destruct r as [name|]; [|destruct Hrun as [-> _]; constructor].
    eapply Forall_impl; [|exact (IH _ _ Hrun)]. intros c Hc Hw.
    apply (expansion_write_more (tr:=tr')); [apply incl_tl, incl_refl|].
    exact (Hc Hw).
Qed.

Lemma after_copy_listed (dir : bytes) (tr : list call) (res : result) :
  runs (after_copy dir) tr res ->
  Forall (fun c => writes c = true -> expansion_write dir tr c) tr.
Proof.
  unfold after_copy, readConfig. cbn [runs].
  intros (r & tr' & -> & Hrun). constructor; [intros H; discriminate H|].
  destruct r as [content|]; [|destruct Hrun as [-> _]; constructor].
  destruct (yaml_map content) as [config|];
    [|destruct Hrun as [-> _]; constructor].
  assert (H : Forall (fun c => writes c = true -> expansion_write dir tr' c)
                tr').
  { revert Hrun. apply runPrompts_listed. intros inputs tr Hrun.
    exact (replaceVars_listed Hrun). }
  eapply Forall_impl; [|exact H]. intros c Hc Hw.
  apply (expansion_write_more (tr:=tr')); [apply incl_tl, incl_refl|].
  exact (Hc Hw).
Qed.

(** The writes of the copy belong to its listing, those behind it to the
    expansion. *)
Lemma copy_phase_listed (infoDir dir dst : bytes) (tr : list call)
    (res : result) :
  runs (copy_phase infoDir dir dst) tr res ->
  exists entries,
    In (Call (WalkDir infoDir) entries) tr
    /\ Forall (fun c => writes c = true ->
                        copy_call infoDir dir entries c
                        \/ expansion_write dir tr c) tr.
Proof.
  unfold copy_phase. cbn [runs]. intros (entries & tr' & -> & Hrun).
  exists entries. split; [left; reflexivity|].
  constructor; [intros H; discriminate H|].
  destruct (@copy_tree_runs infoDir dir dst entries _ res entries tr'
              (incl_refl entries) Hrun)
    as (tr1 & tr2 & -> & Hall & Hk).
  apply Forall_app. split.
  - eapply Forall_impl; [|exact Hall]. intros c Hc _. left. exact Hc.
  - destruct Hk as [Hk|[-> _]]; [|constructor].
    eapply Forall_impl; [|exact (after_copy_listed Hk)]. intros c Hc Hw.
    right. apply (expansion_write_more (tr:=tr2)); [|exact (Hc Hw)].
    intros x Hx. right. apply in_or_app. right. exact Hx.
Qed.

Lemma checked_run_listed (ver dir dst : bytes) (tr : list call)
    (res : result) :
  runs (checked_run ver dir dst) tr res -> Forall (listed_write dir tr) tr.
Proof.
  assert (Hcopy : forall stdout infoDir pre tr0,
    json_Dir stdout = Some infoDir ->
    In (Call (GoModDownload ver) (true, stdout)) (pre ++ tr0) ->
    runs (copy_phase infoDir dir dst) tr0 res ->
    Forall (listed_write dir (pre ++ tr0)) tr0).
  { intros stdout infoDir pre tr0 Hjson Hfetch Hrun.
    destruct (copy_phase_listed Hrun) as (entries & Hwalk & Hall).
    eapply Forall_impl; [|exact Hall]. intros c Hc Hw.
    destruct (Hc Hw) as [H|H].
    - right. left. exists ver, stdout, infoDir, entries.
      split; [exact Hfetch|]. split; [exact Hjson|].
      split; [apply in_or_app; right; exact Hwalk|exact H].
    - right. right. apply (expansion_write_more (tr:=tr0)); [|exact H].
      intros x Hx. apply in_or_app. right. exact Hx. }
  unfold checked_run. cbn [runs]. intros ([de err_nil] & tr1 & -> & Hrun).
  constructor; [intros H; discriminate H|].
  destruct (err_nil && (0 <? length de));
    [destruct Hrun as [-> _]; constructor|].
  cbn [runs] in Hrun. destruct Hrun as ([ran stdout] & tr2 & -> & Hrun).
  constructor; [intros H; discriminate H|].
  destruct ran; cbn [negb] in Hrun;
    [|destruct Hrun as [-> _]; constructor].
  destruct (json_Dir stdout) as [infoDir|] eqn:Hjson;
    [|destruct Hrun as [-> _]; constructor].
  destruct err_nil; cbn [negb] in Hrun.
  - apply (Hcopy stdout infoDir
             [Call (ReadDir dir) (de, true);
              Call (GoModDownload ver) (true, stdout)] tr2 Hjson);
      [right; left; reflexivity|exact Hrun].
  - cbn [runs] in Hrun. destruct Hrun as (ok & tr3 & -> & Hrun).
    constructor; [intros _; left; reflexivity|].
    destruct ok; [|destruct Hrun as [-> _]; constructor].
    apply (Hcopy stdout infoDir
             [Call (ReadDir dir) (de, false);
              Call (GoModDownload ver) (true, stdout);
              Call (MkdirAll dir) true] tr3 Hjson);
      [right; left; reflexivity|exact Hrun].
Qed.

(** X13: whatever the arguments and the answers of the outside world,
    every call of a run that makes a directory or creates or writes a
    file is the making of the destination, or a call of the copy for an
    entry of the listing of the directory that the fetch of this run
    named, or a call of the expansion for a file entry of the listing of
    the destination of this run: the path it writes is the path of a
    listed entry, made relative to the listed directory and joined to the
    destination (or the directory of that path). *)
Theorem writes_follow_listings (args : list bytes) (tr : list call)
    (res : result) :
  runs (initProject args) tr res ->
  Forall (listed_write (destination args) tr) tr.
Proof.
  assert (Hrun : forall tr, runs (initProject_run args) tr res ->
                            Forall (listed_write (destination args) tr) tr).
  { clear tr. intros tr Hrun. destruct args as [|arg0 more].
    - destruct Hrun as [-> _]. constructor.
    - destruct (invalid_identity (arg0 :: more)) eqn:V.
      + destruct (invalid_identity_exits _ V) as [what E].
        rewrite E in Hrun. destruct Hrun as [-> _]. constructor.
      + rewrite (initProject_run_checked _ _ V) in Hrun.
        exact (checked_run_listed Hrun). }
  unfold initProject. destruct ((length args <? 1) || (3 <? length args)).
  - cbn [runs]. intros (ok & tr' & -> & H).
    constructor; [intros Hw; discriminate Hw|].
    destruct ok; [|destruct H as [-> _]; constructor].
    eapply Forall_impl; [|exact (Hrun _ H)]. intros c.
    apply listed_write_more. apply incl_tl, incl_refl.
  - apply Hrun.
Qed.

Lemma project_made_more (infoDir dir : bytes) (tr tr' : list call) :
  incl tr tr' -> project_made infoDir dir tr -> project_made infoDir dir tr'.
Proof.
  intros Hsub (entries & content & config & names & walked
               & H1 & H2 & H3 & H4 & H5 & H6 & H7 & H8).
  exists entries, content, config, names, walked.
  split; [apply Hsub; exact H1|].
  split; [eapply Forall_impl; [|exact H2]; intros a; apply copied_more;
          exact Hsub|].
  split; [apply Hsub; exact H3|]. split; [exact H4|]. split; [exact H5|].
  split; [intros x Hx; apply Hsub, H6; exact Hx|].
  split; [apply Hsub; exact H7|].
  eapply Forall_impl; [|exact H8]. intros a. apply expanded_more. exact Hsub.
Qed.

Lemma copy_phase_returned (infoDir dir dst : bytes) (tr : list call) :
  runs (copy_phase infoDir dir dst) tr Returned -> project_made infoDir dir tr.
Proof.
  unfold copy_phase. cbn [runs]. intros (entries & tr' & -> & Hrun).
  destruct (@copy_tree_returned infoDir dir dst _ entries tr' Hrun)
    as (tr1 & tr2 & -> & Hk & Hcopied).
  unfold after_copy, readConfig in Hk. cbn [runs] in Hk.
  destruct Hk as (r & tr3 & -> & Hk).
  destruct r as [content|]; [|run_exited].
  destruct (yaml_map content) as [config|] eqn:Hyaml; [|run_exited].
  destruct (@runPrompts_returned _ config [] tr3 Hk)
    as (names & tr4 & Hlen & -> & Hv).
  cbn [app] in Hv. unfold replaceVars in Hv. cbn [runs] in Hv.
  destruct Hv as (walked & tr5 & -> & Hv).
  destruct (@replaceVars_walk_returned dir _ Return walked tr5 Hv)
    as (tr6 & tr7 & -> & _ & Hexpanded).
  exists entries, content, config, names, walked.
  split; [left; reflexivity|].
  split.
  { eapply Forall_impl; [|exact Hcopied]. intros a. apply copied_more.
    intros x Hx. right. apply in_or_app. left. exact Hx. }
  split; [right; apply in_or_app; right; left; reflexivity|].
  split; [exact Hyaml|]. split; [exact Hlen|].
  split.
  { intros x Hx. right. apply in_or_app. right. right.
    apply in_or_app. left. exact Hx. }
  split.
  { right. apply in_or_app. right. right. apply in_or_app. right.
    left. reflexivity. }
  eapply Forall_impl; [|exact Hexpanded]. intros a. apply expanded_more.
  intros x Hx. right. apply in_or_app. right. right. apply in_or_app.
  right. right. apply in_or_app. left. exact Hx.
Qed.

Lemma checked_run_returned (ver dir dst : bytes) (tr : list call) :
  runs (checked_run ver dir dst) tr Returned ->
  exists stdout infoDir,
    In (Call (GoModDownload ver) (true, stdout)) tr
    /\ json_Dir stdout = Some infoDir
    /\ project_made infoDir dir tr.
Proof.
  unfold checked_run. cbn [runs]. intros ([de err_nil] & tr1 & -> & Hrun).
  destruct (err_nil && (0 <? length de)); [run_exited|].
  cbn [runs] in Hrun. destruct Hrun as ([ran stdout] & tr2 & -> & Hrun).
  destruct ran; cbn [negb] in Hrun; [|run_exited].
  destruct (json_Dir stdout) as [infoDir|] eqn:Hjson; [|run_exited].
  exists stdout, infoDir. split; [right; left; reflexivity|].
  split; [exact Hjson|].
  destruct err_nil; cbn [negb] in Hrun.
  - apply (project_made_more (tr:=tr2)); [|exact (copy_phase_returned Hrun)].
    apply incl_tl, incl_tl, incl_refl.
  - cbn [runs] in Hrun. destruct Hrun as (ok & tr3 & -> & Hrun).
    destruct ok; [|run_exited].
    apply (project_made_more (tr:=tr3)); [|exact (copy_phase_returned Hrun)].
    apply incl_tl, incl_tl, incl_tl, incl_refl.
Qed.

(** X14: a run that returns has either only failed to print the usage,
    or has done all of the work: the module was fetched at the version
    of [args[0]], every entry of the listing of the cache copied, the
    configuration read from [template.yaml] in the destination, every
    prompt answered, and every file of the listing of the destination
    expanded with the answers. *)
Theorem returned_run_is_complete (args : list bytes) (tr : list call) :
  runs (initProject args) tr Returned ->
  tr = [Call Usage false]
  \/ exists arg0 more stdout infoDir,
       args = arg0 :: more
       /\ In (Call (GoModDownload (version_of arg0)) (true, stdout)) tr
       /\ json_Dir stdout = Some infoDir
       /\ project_made infoDir (destination args) tr.
Proof.
  assert (Hrun : forall tr, runs (initProject_run args) tr Returned ->
    exists arg0 more stdout infoDir,
      args = arg0 :: more
      /\ In (Call (GoModDownload (version_of arg0)) (true, stdout)) tr
      /\ json_Dir stdout = Some infoDir
      /\ project_made infoDir (destination args) tr).
  { clear tr. intros tr Hrun. destruct args as [|arg0 more]; [run_exited|].
    destruct (invalid_identity (arg0 :: more)) eqn:V.
    - destruct (invalid_identity_exits _ V) as [what E].
      rewrite E in Hrun. run_exited.
    - rewrite (initProject_run_checked _ _ V) in Hrun.
      destruct (checked_run_returned Hrun) as (stdout & infoDir & H1 & H2 & H3).
      exists arg0, more, stdout, infoDir. repeat split; assumption. }
  unfold initProject. destruct ((length args <? 1) || (3 <? length args)).
  - cbn [runs]. intros (ok & tr' & -> & H). destruct ok.
    + right.
      destruct (Hrun _ H) as (arg0 & more & stdout & infoDir & E & H1 & H2 & H3).
      exists arg0, more, stdout, infoDir. split; [exact E|].
      split; [right; exact H1|]. split; [exact H2|].
      apply (project_made_more (tr:=tr')); [apply incl_tl, incl_refl|exact H3].
    + left. destruct H as [-> _]. reflexivity.
  - intros H. right. exact (Hrun _ H).
Qed.

End CopyFacts.

(** ** The further properties on sample runs *)

Section FurtherWitnesses.

Import Examples Sample Tour.

Existing Instance Plain.toolchain.
Existing Instance modfile.
Existing Instance platform.
Existing Instance codecs.

Lemma tour_returns : runs (initProject arguments) run Returned.
Proof.
  assert (E : snd (exec world (initProject arguments)) = Returned)
    by (vm_compute; reflexivity).
  unfold run. rewrite <- E. apply exec_runs.
Qed.

Lemma fixGo_rewrites_header_only_witness :
  (exists name dname,
     fixGo self_import [] (B "a/b") (B "a/c") true
     = Fatal (PlanError name dname))
  \/ exists mid,
       fixGo self_import [] (B "a/b") (B "a/c") true
       = Ok (firstn 8 self_import ++ mid ++ skipn 22 self_import).
Proof.
  exact (@fixGo_rewrites_header_only Plain.toolchain self_import []
           (B "a/b") (B "a/c") true self_import_ast eq_refl eq_refl).
Defined.

Lemma edits_on_header_spans_witness :
  edit.old {| edit.old := self_import; edit.q := self_import_edits |}
  = self_import
  /\ Forall (on_header self_import_ast) self_import_edits
  /\ length self_import_edits <= 1 + 2 * length (Imports self_import_ast).
Proof.
  exact (@edits_on_header_spans Plain.toolchain self_import
           (B "a/b") (B "a/c") true self_import_ast
           {| edit.old := self_import; edit.q := self_import_edits |}
           eq_refl).
Defined.

Lemma no_write_before_fetch_witness : no_write_until_fetch run = true.
Proof.
  exact (@no_write_before_fetch Plain.toolchain modfile platform codecs
           arguments run Returned tour_returns).
Defined.

Lemma destination_then_fetch_witness :
  exists de err_nil tr1,
    run = Call (ReadDir (destination arguments)) (de, err_nil) :: tr1
    /\ if err_nil && (0 <? length de)
       then tr1 = [] /\ Returned = Exited DestinationError
       else exists ran stdout tr2,
         tr1 = Call (GoModDownload (version_of (B "example.com/t")))
                 (ran, stdout) :: tr2
         /\ match ran, json_Dir stdout with
            | true, Some infoDir =>
                if err_nil
                then runs (copy_phase infoDir (destination arguments)
                             (new_identity arguments)) tr2 Returned
                else exists ok tr3,
                  tr2 = Call (MkdirAll (destination arguments)) ok :: tr3
                  /\ if ok
                     then runs (copy_phase infoDir (destination arguments)
                                  (new_identity arguments)) tr3 Returned
                     else tr3 = [] /\ Returned = Exited IOError
            | _, _ => tr2 = [] /\ Returned = Exited FetchError
            end.
Proof.
  apply (@destination_then_fetch Plain.toolchain modfile platform codecs
           (B "example.com/t") [B "example.com/m"] run Returned).
  - simpl. lia.
  - reflexivity.
  - exact tour_returns.
Defined.

Lemma source_and_version_witness :
  source_of (B "example.com/t") = B "example.com/t"
  /\ version_of (B "example.com/t") = B "example.com/t" ++ B "@latest"
  /\ source_of (B "example.com/t" ++ B "@" ++ B "v1.2.0") = B "example.com/t"
  /\ version_of (B "example.com/t" ++ B "@" ++ B "v1.2.0")
     = B "example.com/t" ++ B "@" ++ B "v1.2.0".
Proof.
  apply (@source_and_version (B "example.com/t") (B "v1.2.0")).
  unfold no_at. repeat (apply Forall_cons; [discriminate|]).
  apply Forall_nil.
Defined.

Lemma copy_calls_only_witness :
  exists entries tr1 tr2,
    fst (exec world (copy_phase (B "/cache/t") (B "./m") (B "example.com/m")))
    = Call (WalkDir (B "/cache/t")) entries :: tr1 ++ tr2
    /\ Forall (copy_call (B "/cache/t") (B "./m") entries) tr1
    /\ (runs (after_copy (B "./m")) tr2
          (snd (exec world
                  (copy_phase (B "/cache/t") (B "./m") (B "example.com/m"))))
        \/ (tr2 = []
            /\ exists e,
                 snd (exec world
                        (copy_phase (B "/cache/t") (B "./m")
                           (B "example.com/m")))
                 = Exited e)).
Proof.
  exact (@copy_calls_only Plain.toolchain modfile platform codecs
           (B "/cache/t") (B "./m") (B "example.com/m") _ _
           (exec_runs world
              (copy_phase (B "/cache/t") (B "./m") (B "example.com/m")))).
Defined.

Lemma go_file_compared_with_cache_path_witness :
  exists ok tr'',
    [Call (WriteFile (B "./m/t.go") cached_go_file) true]
    = Call (WriteFile (Join (B "./m") (B "t.go")) cached_go_file) ok :: tr''
    /\ if ok
       then runs (copy_tree (B "/cache/t") (B "./m") (B "example.com/m")
                    [] Return) tr'' Returned
       else tr'' = [] /\ Returned = Exited IOError.
Proof.
  apply (@go_file_compared_with_cache_path Plain.toolchain modfile platform
           codecs (B "/cache/t") (B "./m") (B "example.com/m") go_entry []
           Return (B "t.go") cached_go_file cached_go_file_ast
           [Call (WriteFile (B "./m/t.go") cached_go_file) true] Returned
           eq_refl eq_refl eq_refl eq_refl eq_refl).
  - intros spec pth [<-|[]] H. apply (f_equal (fun o =>
      match o with Some x => x | None => [] end)) in H.
    simpl in H. subst pth. split; [discriminate|reflexivity].
  - discriminate.
  - discriminate.
  - exact (exec_runs world_go_file
             (copy_tree (B "/cache/t") (B "./m") (B "example.com/m")
                [go_entry] Return)).
Defined.

Lemma other_file_copied_as_read_witness :
  exists r tr',
    fst (exec world
           (copy_tree (B "/cache/t") (B "./m") (B "example.com/m")
              [nested_manifest] Return))
    = Call (ReadFile (w_path nested_manifest)) r :: tr'
    /\ match r with
       | None => tr' = [] /\ Returned = Exited IOError
       | Some data =>
           exists ok tr'',
             tr' = Call (WriteFile (Join (B "./m") (B "sub/go.mod")) data) ok
                   :: tr''
             /\ if ok
                then runs (copy_tree (B "/cache/t") (B "./m")
                             (B "example.com/m") [] Return) tr'' Returned
                else tr'' = [] /\ Returned = Exited IOError
       end.
Proof.
  apply (@other_file_copied_as_read Plain.toolchain modfile platform codecs
           (B "/cache/t") (B "./m") (B "example.com/m") nested_manifest []
           Return (B "sub/go.mod") _ Returned eq_refl eq_refl eq_refl
           eq_refl).
  - discriminate.
  - exact (exec_runs world
             (copy_tree (B "/cache/t") (B "./m") (B "example.com/m")
                [nested_manifest] Return)).
Defined.

Lemma root_manifest_gets_new_identity_witness :
  match fixGoMod manifest_t (B "example.com/m") with
  | Fatal e =>
      [Call (WriteFile (B "./m/go.mod") manifest_m) true] = []
      /\ Returned = Exited e
  | Ok out =>
      exists ok tr'',
        [Call (WriteFile (B "./m/go.mod") manifest_m) true]
        = Call (WriteFile (Join (B "./m") (B "go.mod")) out) ok :: tr''
        /\ if ok
           then runs (copy_tree (B "/cache/t") (B "./m") (B "example.com/m")
                        [] Return) tr'' Returned
           else tr'' = [] /\ Returned = Exited IOError
  end.
Proof.
  apply (@root_manifest_gets_new_identity Plain.toolchain modfile platform
           codecs (B "/cache/t") (B "./m") (B "example.com/m")
           {| w_path := B "/cache/t/go.mod"; w_isDir := false;
              w_err := false |}
           [] Return manifest_t
           [Call (WriteFile (B "./m/go.mod") manifest_m) true] Returned
           eq_refl eq_refl eq_refl).
  exact (exec_runs world
           (copy_tree (B "/cache/t") (B "./m") (B "example.com/m")
              [{| w_path := B "/cache/t/go.mod"; w_isDir := false;
                  w_err := false |}] Return)).
Defined.

Lemma prompts_answer_every_key_witness :
  (exists names tr2,
     length names = length config
     /\ fst (exec world (runPrompts config [] (fun _ => Return)))
        = prompt_calls config names ++ tr2
     /\ runs Return tr2
          (snd (exec world (runPrompts config [] (fun _ => Return)))))
  \/ (exists asked key desc unasked names,
        config = asked ++ (key, desc) :: unasked
        /\ length names = length asked
        /\ fst (exec world (runPrompts config [] (fun _ => Return)))
           = prompt_calls asked names ++ [Call (Prompt desc) None]
        /\ snd (exec world (runPrompts config [] (fun _ => Return)))
           = Exited IOError).
Proof.
  exact (@prompts_answer_every_key codecs (fun _ => Return) _ config [] _
           (exec_runs world (runPrompts config [] (fun _ => Return)))).
Defined.

Lemma expansion_calls_only_witness :
  exists entries tr1 tr2,
    fst (exec world (replaceVars (B "./m") [(B "name", B "demo")] Return))
    = Call (Walk (B "./m")) entries :: tr1 ++ tr2
    /\ Forall (expand_call (B "./m") [(B "name", B "demo")] entries) tr1
    /\ (runs Return tr2
          (snd (exec world
                  (replaceVars (B "./m") [(B "name", B "demo")] Return)))
        \/ (tr2 = []
            /\ exists e,
                 snd (exec world
                        (replaceVars (B "./m") [(B "name", B "demo")] Return))
                 = Exited e)).
Proof.
  exact (@expansion_calls_only platform codecs (B "./m")
           [(B "name", B "demo")] Return _ _
           (exec_runs world
              (replaceVars (B "./m") [(B "name", B "demo")] Return))).
Defined.

Lemma writes_follow_listings_witness :
  Forall (listed_write (destination arguments) run) run.
Proof.
  exact (@writes_follow_listings Plain.toolchain modfile platform codecs
           arguments run Returned tour_returns).
Defined.

Lemma returned_run_is_complete_witness :
  run = [Call Usage false]
  \/ exists arg0 more stdout infoDir,
       arguments = arg0 :: more
       /\ In (Call (GoModDownload (version_of arg0)) (true, stdout)) run
       /\ json_Dir stdout = Some infoDir
       /\ project_made infoDir (destination arguments) run.
Proof.
  exact (@returned_run_is_complete Plain.toolchain modfile platform codecs
           arguments run tour_returns).
Defined.

End FurtherWitnesses.
